(** * Verification of the Format-Interface-Generator pipeline

    A shallow embedding of the parts of the Go sources that the
    specification talks about:
    - [validator.go]: [lowercaseFieldKeysRecursive] and the
      validation/reformation walk of [ValidateAndReformYAML];
    - [utils/get_expressions.go]: the [CalculatePaddedSize] helper;
    - the generated [simplebmp] codecs [Header] and [ImageData];
    - [generator/generator.go]: the per-record loop of [GenerateCode]
      and the analysis of a record's fields for its template;
    - [config]: [LoadConfig], and [config/defaults.go]: [GetDefaults];
    - [main.go]: the listing of source files and the configuration
      update of [runBootstrap], the loop of [runGeneration] over the
      selected descriptors, the selection prompts
      [showSourceFileSelection] and [showConfigSelection], and the choice
      of the struct tested by [generateTestScript];
    - [utils/get_module.go]: [GetGoModulePath].

    Go strings are modelled as Rocq [string]s (byte strings).  The Go
    library function [strings.TrimSpace] is modelled on single-byte
    (ASCII) characters, which is the domain of the attribute values
    used below.  [strings.ToLower] is Unicode-aware: the models that
    call it take it as a parameter, and the results hold for every
    function in its place (or, where stated, for every idempotent one).
    The generated codecs read from an [io.Reader] that may return short
    reads and write to an [io.Writer] that may fail. *)

From Stdlib Require Import ZArith Lia.
From stdpp Require Import base list gmap strings pretty sorting.
From Stdlib Require Import Ascii String Btauto.

Open Scope string_scope.
Set Warnings "-register-all".

(* ------------------------------------------------------------------ *)
(** ** Go string helpers *)

Module GoStrings.

(** [unicode.IsSpace] on single-byte characters:
    '\t', '\n', '\v', '\f', '\r' and ' '. *)
Definition is_space (c : ascii) : bool :=
  let n := nat_of_ascii c in
  ((9 <=? n) && (n <=? 13))%nat || (n =? 32)%nat.

Fixpoint trim_left (s : string) : string :=
  match s with
  | EmptyString => EmptyString
  | String c r => if is_space c then trim_left r else s
  end.

Definition string_rev (s : string) : string :=
  string_of_list_ascii (rev (list_ascii_of_string s)).

(** [strings.TrimSpace]. *)
Definition TrimSpace (s : string) : string :=
  string_rev (trim_left (string_rev (trim_left s))).

(** The ASCII fast path of [strings.ToLower]: on a string whose bytes
    are all below 0x80, [strings.ToLower] maps 'A'..'Z' to 'a'..'z' and
    keeps every other byte.  On other strings [strings.ToLower] decodes
    UTF-8 and applies [unicode.ToLower], which this function does not
    model; the models below therefore take [strings.ToLower] as a
    parameter, and this function only instantiates it in examples on
    ASCII strings. *)
Definition lower_char_ascii (c : ascii) : ascii :=
  let n := nat_of_ascii c in
  if ((65 <=? n) && (n <=? 90))%nat then ascii_of_nat (n + 32) else c.

Fixpoint ToLower_ascii (s : string) : string :=
  match s with
  | EmptyString => EmptyString
  | String c r => String (lower_char_ascii c) (ToLower_ascii r)
  end.

Definition is_digit (c : ascii) : bool :=
  let n := nat_of_ascii c in ((48 <=? n) && (n <=? 57))%nat.

(** Value of a non-empty run of decimal digits. *)
Fixpoint digits_acc (acc : Z) (s : string) : option Z :=
  match s with
  | EmptyString => Some acc
  | String c r =>
      if is_digit c
      then digits_acc (acc * 10 + Z.of_nat (nat_of_ascii c - 48))%Z r
      else None
  end.

Definition digits_value (s : string) : option Z :=
  match s with
  | EmptyString => None
  | _ => digits_acc 0 s
  end.

(** [strconv.Atoi] on a 64-bit platform: an optional sign, then one or
    more decimal digits, and the value must fit in [int64]. *)
Definition Atoi (s : string) : option Z :=
  let '(neg, body) :=
    match s with
    | String c r =>
        if Ascii.eqb c "-"%char then (true, r)
        else if Ascii.eqb c "+"%char then (false, r)
        else (false, s)
    | EmptyString => (false, s)
    end in
  match digits_value body with
  | None => None
  | Some v =>
      let z := if neg then (- v)%Z else v in
      if ((- 2 ^ 63 <=? z) && (z <? 2 ^ 63))%Z then Some z else None
  end.

End GoStrings.

Import GoStrings.

(* ------------------------------------------------------------------ *)
(** ** The descriptor model ([application_structs]) *)

Record Field := mkField {
  f_Name : string;
  f_Type : string;
  f_Description : string;
  f_Length : string;
  f_Condition : string;
  f_Tags : string
}.

(** [Field.IsConditional]: [f.Condition != ""]. *)
Definition IsConditional (f : Field) : bool :=
  negb (String.eqb (f_Condition f) "").

Definition set_Length (f : Field) (l : string) : Field :=
  mkField (f_Name f) (f_Type f) (f_Description f) l (f_Condition f) (f_Tags f).

Record Struct := mkStruct { s_Fields : list Field }.

(** A Go [map[string]Struct], listed in the order in which [range]
    visits it; the keys are pairwise distinct. *)
Record FileFormat := mkFileFormat {
  ff_Name : string;
  ff_Description : string;
  ff_Structs : list (string * Struct)
}.

Definition numeric_types : list string :=
  ["uint8"; "uint16"; "uint32"; "uint64"; "int8"; "int16"; "int32";
   "int64"; "float32"; "float64"].

(** [IsValidLengthExpression]. *)
Definition IsValidLengthExpression (expr : string) : bool :=
  let trimmed := TrimSpace expr in
  negb (String.eqb trimmed "" || String.eqb trimmed "...").

Definition NEEDS_MANUAL_LENGTH : string := "NEEDS_MANUAL_LENGTH".

(* ------------------------------------------------------------------ *)
(** ** The validation/reformation walk of [ValidateAndReformYAML] *)

Module Validator.

(** Outcome of the loop body for one field: the (possibly reformed)
    field, the number of reformations and of hard errors it adds.
    Warnings are only logged and are not part of the outcome. *)
Record FieldOutcome := mkOutcome {
  o_field : Field;
  o_reformations : nat;
  o_errors : nat
}.

(** The condition check at the end of the loop body. *)
Definition condition_errors (f : Field) : nat :=
  if IsConditional f
  then if String.eqb (TrimSpace (f_Condition f)) "" then 1 else 0
  else 0.

(** The [case "string", "[]byte"] branch, for a non-empty [Length]. *)
Definition length_branch (f : Field) : FieldOutcome :=
  let '(f1, r) :=
    if String.eqb (TrimSpace (f_Length f)) "..."
    then (set_Length f NEEDS_MANUAL_LENGTH, 1)
    else (f, 0) in
  let e :=
    match Atoi (f_Length f1) with
    | Some n => if (n <=? 0)%Z then 1 else 0
    | None => if IsValidLengthExpression (f_Length f1) then 0 else 1
    end in
  mkOutcome f1 r (e + condition_errors f1).

(** The loop body of the validation walk for one field.  The two
    [continue] statements skip the remaining checks of the field. *)
Definition validate_field (f : Field) : FieldOutcome :=
  if String.eqb (TrimSpace (f_Type f)) "" then mkOutcome f 0 1
  else if String.eqb (f_Type f) "string" || String.eqb (f_Type f) "[]byte" then
    if String.eqb (f_Length f) "" then mkOutcome f 0 1
    else length_branch f
  else
    (* numeric and custom types only log warnings about [Length] *)
    mkOutcome f 0 (condition_errors f).

(** The inner loop over [tempStructDef.Fields]. *)
Fixpoint validate_fields (fs : list Field) : list Field * nat * nat :=
  match fs with
  | [] => ([], 0, 0)
  | f :: rest =>
      let o := validate_field f in
      let '(rest', r, e) := validate_fields rest in
      (o_field o :: rest', o_reformations o + r, o_errors o + e)
  end.

(** The outer loop over [fileFormat.Structs]; each struct is written
    back under its own name. *)
Fixpoint validate_structs (ss : list (string * Struct))
  : list (string * Struct) * nat * nat :=
  match ss with
  | [] => ([], 0, 0)
  | (name, sd) :: rest =>
      let '(fs', r1, e1) := validate_fields (s_Fields sd) in
      let '(rest', r2, e2) := validate_structs rest in
      ((name, mkStruct fs') :: rest', r1 + r2, e1 + e2)
  end.

(** The whole walk: reformed descriptor, [reformationsMade],
    [validationErrors]. *)
Definition validate_format (ff : FileFormat) : FileFormat * nat * nat :=
  let '(ss, r, e) := validate_structs (ff_Structs ff) in
  (mkFileFormat (ff_Name ff) (ff_Description ff) ss, r, e).

End Validator.

(* ------------------------------------------------------------------ *)
(** ** Key normalisation: [lowercaseFieldKeysRecursive] *)

Module KeyNorm.

(** The dynamic value of a key of a [map[interface{}]interface{}]:
    a string, or another scalar. *)
Inductive gkey :=
| KStr (s : string)
| KInt (z : Z)
| KBool (b : bool).

(** The weakly typed value tree of [yaml.Unmarshal] into [interface{}]
    values.  [yaml.v2] decodes every mapping below the top level into a
    [map[interface{}]interface{}] ([GIMap]); the top-level [genericData]
    of [ValidateAndReformYAML] is a [map[string]interface{}] ([GSMap]),
    and so is every map that [lowercaseFieldKeysRecursive] builds.  A
    mapping lists its entries in [MapRange] order. *)
Inductive gval :=
| GNil
| GStr (s : string)
| GInt (z : Z)
| GBool (b : bool)
| GSMap (kvs : list (string * gval))
| GIMap (kvs : list (gkey * gval))
| GList (vs : list gval).

(** The [knownFieldKeys] set. *)
Definition knownFieldKeys : list string :=
  ["name"; "type"; "description"; "length"; "condition"; "tags"].

Definition is_known (s : string) : bool :=
  existsb (String.eqb s) knownFieldKeys.

(** [fmt.Sprintf("%v", key.Interface())]: a key of a
    [map[interface{}]interface{}] has [Kind] [reflect.Interface], never
    [reflect.String], so it is printed as it is. *)
Definition print_key (k : gkey) : string :=
  match k with
  | KStr s => s
  | KInt z => pretty z
  | KBool b => if b then "true" else "false"
  end.

(** [newMap[k] = v] on a Go [map[string]interface{}]: an existing key
    is overwritten, a new key is added. *)
Fixpoint map_set (m : list (string * gval)) (k : string) (v : gval)
  : list (string * gval) :=
  match m with
  | [] => [(k, v)]
  | (k', v') :: rest =>
      if String.eqb k k' then (k, v) :: rest else (k', v') :: map_set rest k v
  end.

Section Lower.

(** [strings.ToLower]. *)
Variable ToLower : string -> string.

(** The key under which an entry of a [map[string]interface{}] is
    stored: its key has [Kind] [reflect.String]. *)
Definition string_key (keyStr : string) : string :=
  let lowerKeyStr := ToLower keyStr in
  if is_known lowerKeyStr then lowerKeyStr else keyStr.

Fixpoint lowercaseFieldKeysRecursive (data : gval) : gval :=
  match data with
  | GSMap kvs =>
      GSMap
        ((fix go (newMap : list (string * gval)) (l : list (string * gval))
            : list (string * gval) :=
            match l with
            | [] => newMap
            | (key, val) :: rest =>
                go (map_set newMap (string_key key)
                      (lowercaseFieldKeysRecursive val)) rest
            end) [] kvs)
  | GIMap kvs =>
      GSMap
        ((fix go (newMap : list (string * gval)) (l : list (gkey * gval))
            : list (string * gval) :=
            match l with
            | [] => newMap
            | (key, val) :: rest =>
                go (map_set newMap (print_key key)
                      (lowercaseFieldKeysRecursive val)) rest
            end) [] kvs)
  | GList vs =>
      GList ((fix go (l : list gval) : list gval :=
                match l with
                | [] => []
                | x :: rest => lowercaseFieldKeysRecursive x :: go rest
                end) vs)
  | _ => data
  end.

End Lower.

End KeyNorm.

(* ------------------------------------------------------------------ *)
(** ** [ValidateAndReformYAML] with its file-system and library calls *)

Module Reform.
Import Validator KeyNorm.

(** The outcome of the library and operating-system calls made by
    [ValidateAndReformYAML]: [os.MkdirAll], [ioutil.ReadFile],
    [yaml.Unmarshal], the [mapstructure] decoder, [yaml.Marshal] and
    [ioutil.WriteFile]; [None] (or [false]) is a returned [error]. *)
Record Env := mkEnv {
  env_mkdir_ok : bool;
  env_read : option string;
  env_unmarshal : string -> option gval;
  env_decode : gval -> option FileFormat;
  env_marshal : FileFormat -> option string;
  env_write_ok : string -> bool
}.

(** The errors returned by [ValidateAndReformYAML], one per [return]. *)
Inductive VErr :=
| ErrMkdir
| ErrRead
| ErrParse
| ErrDecode
| ErrValidation (count : nat)
| ErrMarshal
| ErrWrite.

Section Validate.

(** [strings.ToLower], called by [lowercaseFieldKeysRecursive]. *)
Variable ToLower : string -> string.

(** Result: the returned path or error, and the contents written to the
    reformed YAML file, if any. *)
Definition ValidateAndReformYAML (env : Env) (reformedYamlPath : string)
  : (string + VErr) * option string :=
  if negb (env_mkdir_ok env) then (inr ErrMkdir, None) else
  match env_read env with
  | None => (inr ErrRead, None)
  | Some yamlBytes =>
    match env_unmarshal env yamlBytes with
    | None => (inr ErrParse, None)
    | Some genericData =>
      match env_decode env (lowercaseFieldKeysRecursive ToLower genericData) with
      | None => (inr ErrDecode, None)
      | Some fileFormat =>
        let '(ff', reformationsMade, validationErrors) :=
          validate_format fileFormat in
        if (0 <? validationErrors)%nat
        then (inr (ErrValidation validationErrors), None)
        else
          match env_marshal env ff' with
          | None => (inr ErrMarshal, None)
          | Some finalYamlData =>
              if env_write_ok env finalYamlData
              then (inl reformedYamlPath, Some finalYamlData)
              else (inr ErrWrite, None)
          end
      end
    end
  end.

End Validate.

Definition is_error (r : string + VErr) : bool :=
  match r with inl _ => false | inr _ => true end.

End Reform.

(* ------------------------------------------------------------------ *)
(** ** The [CalculatePaddedSize] expression helper *)

Module Padded.

(** Two's-complement wrap-around of Go's 64-bit [int]. *)
Definition wrap64 (z : Z) : Z :=
  ((z + 2 ^ 63) mod 2 ^ 64 - 2 ^ 63)%Z.

(** [float64(i)] for an integer [i]: round to nearest, ties to even,
    with a 53-bit significand. *)
Definition float64_of_int (z : Z) : Z :=
  let a := Z.abs z in
  if (a <=? 2 ^ 53)%Z then z else
  let e := (Z.log2 a - 52)%Z in
  let q := (a / 2 ^ e)%Z in
  let r := (a mod 2 ^ e)%Z in
  let half := (2 ^ (e - 1))%Z in
  let q' := if (half <? r)%Z || ((r =? half)%Z && Z.odd q) then (q + 1)%Z else q in
  (Z.sgn z * (q' * 2 ^ e))%Z.

Inductive PadErr := ErrArgCount | ErrZeroBits | ErrUnsupportedBits.

(** [CalculatePaddedSize] applied to three numeric arguments; the
    arguments are [float64] values with integral magnitude below [2^63],
    so that [int(x)] is [x], and [bitsPerPixel / 8] followed by [int]
    truncates toward zero.  The result is the returned [float64]. *)
Definition CalculatePaddedSize (width height bitsPerPixel : Z) : Z + PadErr :=
  if (bitsPerPixel =? 0)%Z then inr ErrZeroBits else
  let bytesPerPixel := Z.quot bitsPerPixel 8 in
  if (bytesPerPixel <=? 0)%Z then inr ErrUnsupportedBits else
  let bytesPerRow := wrap64 (width * bytesPerPixel) in
  let paddingPerRow := Z.rem (4 - Z.rem bytesPerRow 4) 4 in
  let paddedRowSize := wrap64 (bytesPerRow + paddingPerRow) in
  let totalSize := wrap64 (height * paddedRowSize) in
  inl (float64_of_int totalSize).

(** The formula of the specification, over unbounded integers. *)
Definition padded_size_formula (width height bitsPerPixel : Z) : Z :=
  let bytesPerRow := (width * (bitsPerPixel / 8))%Z in
  let padding := Z.rem (4 - Z.rem bytesPerRow 4) 4 in
  (height * (bytesPerRow + padding))%Z.

End Padded.

(* ------------------------------------------------------------------ *)
(** ** The generated [simplebmp] codecs *)

Module Codec.
Local Open Scope list_scope.

(** Byte strings; every element is a byte value in [0, 256). *)
Abbreviation bytes := (list Z).

(** [io.EOF], [io.ErrUnexpectedEOF], and the error of a failing reader
    or writer. *)
Inductive IOErr := EOF | ErrUnexpectedEOF | ErrIO.

(** An [io.Reader]: the data it delivers, cut into the pieces returned
    by successive [Read] calls (a call returns one piece, or the part of
    it that fits the buffer; a [bytes.Reader] has a single piece), and
    the error it returns once the data is exhausted ([EOF] at the end of
    the input, [ErrIO] for a failing device). *)
Record Reader := mkReader { r_chunks : list bytes; r_err : IOErr }.

(** [r.Read(b)] with [b] a fresh zeroed buffer of [n] bytes: the buffer
    after the call, the reader after it and the returned error. *)
Definition io_Read (n : nat) (r : Reader) : bytes * Reader * option IOErr :=
  match r_chunks r with
  | [] => (replicate n 0%Z, r, Some (r_err r))
  | c :: cs =>
      let k := Nat.min n (List.length c) in
      (take k c ++ replicate (n - k) 0%Z,
       mkReader (if (k <? List.length c)%nat then drop k c :: cs else cs) (r_err r),
       None)
  end.

(** The loop of [io.ReadAtLeast(r, buf, n)]: [Read] is called on the
    rest of the buffer until [n] bytes are in or a call fails; a reader
    at [EOF] after some bytes gives [ErrUnexpectedEOF]. *)
Fixpoint read_at_least (n : nat) (got : bytes) (cs : list bytes) (e : IOErr)
  : bytes * list bytes * option IOErr :=
  if (n =? 0)%nat then (got, cs, None) else
  match cs with
  | [] =>
      (got, [], Some (match got, e with
                      | [], _ => e
                      | _, EOF => ErrUnexpectedEOF
                      | _, _ => e
                      end))
  | c :: cs' =>
      if (List.length c <? n)%nat then read_at_least (n - List.length c) (got ++ c) cs' e
      else (got ++ take n c, if (n <? List.length c)%nat then drop n c :: cs' else cs', None)
  end.

(** [io.ReadFull(r, buf)] for a buffer of [n] bytes: the bytes read, the
    reader after the calls and the error. *)
Definition io_ReadFull (n : nat) (r : Reader) : bytes * Reader * option IOErr :=
  let '(b, cs, e) := read_at_least n [] (r_chunks r) (r_err r) in
  (b, mkReader cs (r_err r), e).

(** [binary.LittleEndian.Uint32]. *)
Definition le_uint32 (b : bytes) : Z :=
  match b with
  | [b0; b1; b2; b3] => (b0 + 2 ^ 8 * b1 + 2 ^ 16 * b2 + 2 ^ 24 * b3)%Z
  | _ => 0%Z
  end.

(** [binary.LittleEndian.PutUint32]. *)
Definition put_uint32 (v : Z) : bytes :=
  [v mod 2 ^ 8; (v / 2 ^ 8) mod 2 ^ 8; (v / 2 ^ 16) mod 2 ^ 8;
   (v / 2 ^ 24) mod 2 ^ 8]%Z.

(** [binary.Read(r, binary.LittleEndian, &x)] for a [uint32] [x], [r] a
    [bytes.Reader] holding [input]: an [io.ReadFull] of four bytes, then
    decoding; on error [x] is left unchanged. *)
Definition binary_Read_uint32 (input : bytes) : (Z + IOErr) * bytes :=
  match input with
  | [] => (inr EOF, [])
  | _ =>
      if (List.length input <? 4)%nat then (inr ErrUnexpectedEOF, [])
      else (inl (le_uint32 (take 4 input)), drop 4 input)
  end.

(** [binary.Read(r, binary.LittleEndian, &x)] for a [uint32] [x] and any
    reader [r]. *)
Definition binary_Read_uint32_io (r : Reader) : (Z + IOErr) * Reader :=
  let '(b, r, e) := io_ReadFull 4 r in
  match e with
  | Some e => (inr e, r)
  | None => (inl (le_uint32 b), r)
  end.

(** An [io.Writer]: a [bytes.Buffer], whose [Write] never fails, or a
    writer that accepts [n] more bytes and then fails (a full disk, a
    closed connection). *)
Inductive Writer := WBuffer | WLimited (n : nat).

(** [w.Write(p)]: the bytes accepted, the writer after the call and the
    returned error. *)
Definition io_Write (w : Writer) (p : bytes) : bytes * Writer * option IOErr :=
  match w with
  | WBuffer => (p, WBuffer, None)
  | WLimited n =>
      if (List.length p <=? n)%nat then (p, WLimited (n - List.length p), None)
      else (take n p, WLimited 0, Some ErrIO)
  end.

(** [binary.Write(w, binary.LittleEndian, x)] for a [uint32] [x]: one
    [w.Write] of the four encoded bytes. *)
Definition binary_Write_uint32 (w : Writer) (v : Z) : bytes * Writer * option IOErr :=
  io_Write w (put_uint32 v).

Record Header := mkHeader {
  Signature : bytes;
  FileSize : Z;
  Reserved : Z;
  DataOffset : Z
}.

Definition Header_zero : Header := mkHeader [] 0 0 0.

(** [Header.Read]: a single [r.Read] into a 2-byte buffer for the
    [Signature] (no [io.ReadFull]), then three [binary.Read]s.  The
    receiver after the call, the reader after it and the returned
    error. *)
Definition Header_Read (s : Header) (r : Reader) : Header * Reader * option IOErr :=
  let '(b, r, err) := io_Read 2 r in
  match err with Some e => (s, r, Some e) | None =>
  let s := mkHeader b (FileSize s) (Reserved s) (DataOffset s) in
  match binary_Read_uint32_io r with
  | (inr e, r) => (s, r, Some e)
  | (inl v, r) =>
    let s := mkHeader (Signature s) v (Reserved s) (DataOffset s) in
    match binary_Read_uint32_io r with
    | (inr e, r) => (s, r, Some e)
    | (inl v, r) =>
      let s := mkHeader (Signature s) (FileSize s) v (DataOffset s) in
      match binary_Read_uint32_io r with
      | (inr e, r) => (s, r, Some e)
      | (inl v, r) => (mkHeader (Signature s) (FileSize s) (Reserved s) v, r, None)
      end
    end
  end
  end.

(** [Header.Write]: [w.Write([]byte(s.Signature))], then three
    [binary.Write]s, stopping at the first error.  The bytes written and
    the returned error. *)
Definition Header_Write (s : Header) (w : Writer) : bytes * option IOErr :=
  let '(o1, w, e) := io_Write w (Signature s) in
  match e with Some e => (o1, Some e) | None =>
  let '(o2, w, e) := binary_Write_uint32 w (FileSize s) in
  match e with Some e => (o1 ++ o2, Some e) | None =>
  let '(o3, w, e) := binary_Write_uint32 w (Reserved s) in
  match e with Some e => (o1 ++ o2 ++ o3, Some e) | None =>
  let '(o4, _, e) := binary_Write_uint32 w (DataOffset s) in
  (o1 ++ o2 ++ o3 ++ o4, e)
  end
  end
  end.

Record ImageData := mkImageData {
  Width : Z;
  Height : Z;
  PixelData : bytes
}.

Definition ImageData_zero : ImageData := mkImageData 0 0 [].

(** [ImageData.Read] on a reader holding [r] and then at [EOF]: only
    [Width] and [Height] are read.  Both reads are [binary.Read]s, that
    is [io.ReadFull]s, so how the reader cuts its data into pieces does
    not matter ([binary_Read_uint32_io_eof] below). *)
Definition ImageData_Read (s : ImageData) (r : bytes) : ImageData * bytes * option IOErr :=
  match binary_Read_uint32 r with
  | (inr e, r) => (s, r, Some e)
  | (inl v, r) =>
    let s := mkImageData v (Height s) (PixelData s) in
    match binary_Read_uint32 r with
    | (inr e, r) => (s, r, Some e)
    | (inl v, r) => (mkImageData (Width s) v (PixelData s), r, None)
    end
  end.

(** [ImageData.Write] to a [bytes.Buffer]: only [Width] and [Height]
    are written. *)
Definition ImageData_Write (s : ImageData) : bytes * option IOErr :=
  (put_uint32 (Width s) ++ put_uint32 (Height s), None).

Definition is_uint32 (v : Z) : Prop := (0 <= v < 2 ^ 32)%Z.

End Codec.

(* ------------------------------------------------------------------ *)
(** ** The per-record loop of [GenerateCode] *)

Module Generate.

(** [isSeparator] of [strings.Title] on single-byte characters: ASCII
    letters, digits and '_' are not separators. *)
Definition is_separator (c : ascii) : bool :=
  let n := nat_of_ascii c in
  negb (((48 <=? n) && (n <=? 57)) || ((97 <=? n) && (n <=? 122))
        || ((65 <=? n) && (n <=? 90)) || (n =? 95))%nat.

Definition upper_char (c : ascii) : ascii :=
  let n := nat_of_ascii c in
  if ((97 <=? n) && (n <=? 122))%nat then ascii_of_nat (n - 32) else c.

Fixpoint title_from (prev : ascii) (s : string) : string :=
  match s with
  | EmptyString => EmptyString
  | String c r =>
      String (if is_separator prev then upper_char c else c) (title_from c r)
  end.

(** [strings.Title]. *)
Definition Title (s : string) : string := title_from " "%char s.

(** [goFileName := strings.Title(structName) + ".go"]. *)
Definition goFileName (structName : string) : string :=
  Title structName ++ ".go".

Inductive GenErr :=
| ErrTemplate (structName : string)
| ErrWriteFile (fileName : string).

Section Loop.

(** [tmpl.Execute] on the [TemplateData] built for a struct from its
    name and definition: the generated source, or [None] for an
    execution error. *)
Variable execute : string -> Struct -> option string.
(** Whether [ioutil.WriteFile] succeeds on a file of the output
    directory. *)
Variable write_ok : string -> bool.

(** Step 4 of [GenerateCode]: [for structName, structDef := range
    fileFormat.Structs], where [order] is the order chosen by [range].
    Result: the files of the output directory, the struct names whose
    file was written, in order, and the error returned, if any. *)
Fixpoint generate_structs (order : list (string * Struct))
    (files : gmap string string) : gmap string string * list string * option GenErr :=
  match order with
  | [] => (files, [], None)
  | (structName, structDef) :: rest =>
      match execute structName structDef with
      | None => (files, [], Some (ErrTemplate structName))
      | Some output =>
          let outputPath := goFileName structName in
          if write_ok outputPath then
            let '(files', emitted, err) :=
              generate_structs rest (<[outputPath := output]> files) in
            (files', structName :: emitted, err)
          else (files, [], Some (ErrWriteFile outputPath))
      end
  end.

End Loop.

End Generate.

(* ------------------------------------------------------------------ *)
(** ** [LoadConfig] *)

Module Config.

Record FormatConfig := mkFormatConfig {
  fc_Name : string;
  fc_YAMLFile : string;
  fc_OutputDir : string;
  fc_PackageName : string
}.

(** Outcome of [ioutil.ReadFile]: the file does not exist
    ([os.IsNotExist(err)]), another read error, or the contents. *)
Inductive ReadResult :=
| RNotExist
| RReadErr
| ROk (data : string).

Inductive ConfigErr := ErrReadConfig | ErrParseConfig.

(** [LoadConfig], given the outcome of [ioutil.ReadFile] on each path
    and [json.Unmarshal] into [[]FormatConfig] ([None] is an error). *)
Definition LoadConfig (readFile : string -> ReadResult)
    (unmarshal : string -> option (list FormatConfig)) (configPath : string)
  : list FormatConfig * option ConfigErr :=
  match readFile configPath with
  | RNotExist => ([], None)
  | RReadErr => ([], Some ErrReadConfig)
  | ROk configData =>
      match unmarshal configData with
      | None => ([], Some ErrParseConfig)
      | Some configs => (configs, None)
      end
  end.

End Config.

(* ------------------------------------------------------------------ *)
(** ** More of the Go library: [sort], [strings], [path/filepath] *)

Module GoLib.

(** [sort.Strings].  Go compares strings bytewise, which is [String.le];
    the sorted permutation of a list of strings is unique, so the result
    does not depend on the sorting algorithm. *)
Definition sort_Strings (l : list string) : list string := merge_sort String.le l.

(** [strings.HasPrefix]. *)
Definition HasPrefix (s prefix : string) : bool := String.prefix prefix s.

(** [strings.HasSuffix]. *)
Definition HasSuffix (s suffix : string) : bool :=
  let n := String.length s in
  let m := String.length suffix in
  (m <=? n)%nat && String.eqb (substring (n - m) m s) suffix.

(** [strings.TrimPrefix]. *)
Definition TrimPrefix (s prefix : string) : string :=
  if HasPrefix s prefix
  then substring (String.length prefix) (String.length s - String.length prefix) s
  else s.

(** [strings.TrimSuffix]. *)
Definition TrimSuffix (s suffix : string) : string :=
  if HasSuffix s suffix
  then substring 0 (String.length s - String.length suffix) s
  else s.

(** [strings.Split(s, sep)] for a one-byte separator [sep]. *)
Fixpoint Split (s : string) (sep : ascii) : list string :=
  match s with
  | EmptyString => [""]
  | String c r =>
      let parts := Split r sep in
      if Ascii.eqb c sep then "" :: parts
      else match parts with
           | [] => [String c ""]
           | p :: ps => String c p :: ps
           end
  end.

(** [strings.Join(l, sep)]. *)
Fixpoint join_with (sep : string) (l : list string) : string :=
  match l with
  | [] => ""
  | [x] => x
  | x :: r => x ++ sep ++ join_with sep r
  end.

Definition slash : ascii := "/"%char.

(** The path functions below are those of [path/filepath] on Unix. *)

Fixpoint drop_slashes (l : list ascii) : list ascii :=
  match l with
  | c :: r => if Ascii.eqb c slash then drop_slashes r else l
  | [] => []
  end.

Fixpoint take_name (l : list ascii) (acc : list ascii) : list ascii :=
  match l with
  | c :: r => if Ascii.eqb c slash then acc else take_name r (c :: acc)
  | [] => acc
  end.

(** [filepath.Base]: trailing slashes are removed, then the last
    element is returned; "" gives "." and a path of slashes "/". *)
Definition Base (path : string) : string :=
  if String.eqb path "" then "." else
  match take_name (drop_slashes (rev (list_ascii_of_string path))) [] with
  | [] => "/"
  | name => string_of_list_ascii name
  end.

Fixpoint ext_from (l : list ascii) (acc : list ascii) : string :=
  match l with
  | [] => ""
  | c :: r =>
      if Ascii.eqb c slash then ""
      else if Ascii.eqb c "."%char then string_of_list_ascii (c :: acc)
      else ext_from r (c :: acc)
  end.

(** [filepath.Ext]: the suffix from the last '.' of the last element. *)
Definition Ext (path : string) : string :=
  ext_from (rev (list_ascii_of_string path)) [].

(** The lexical processing of [filepath.Clean], on the elements of the
    path; [stack] holds the output elements, last one first. *)
Fixpoint clean_elems (rooted : bool) (stack : list string) (es : list string)
  : list string :=
  match es with
  | [] => stack
  | e :: rest =>
      if String.eqb e "" || String.eqb e "." then clean_elems rooted stack rest
      else if String.eqb e ".." then
        match stack with
        | top :: stack' =>
            if String.eqb top ".." then clean_elems rooted (".." :: stack) rest
            else clean_elems rooted stack' rest
        | [] =>
            if rooted then clean_elems rooted [] rest
            else clean_elems rooted [".."] rest
        end
      else clean_elems rooted (e :: stack) rest
  end.

(** [filepath.Clean]. *)
Definition Clean (path : string) : string :=
  if String.eqb path "" then "." else
  let rooted := match path with String c _ => Ascii.eqb c slash | _ => false end in
  let body := join_with "/" (rev (clean_elems rooted [] (Split path slash))) in
  let out := if rooted then "/" ++ body else body in
  if String.eqb out "" then "." else out.

(** [filepath.Join(a, b)]: [Clean] of the elements from the first
    non-empty one, joined by '/'. *)
Definition Join (a b : string) : string :=
  if negb (String.eqb a "") then Clean (a ++ "/" ++ b)
  else if negb (String.eqb b "") then Clean b
  else "".

Fixpoint drop_to_slash (l : list ascii) : list ascii :=
  match l with
  | [] => []
  | c :: r => if Ascii.eqb c slash then l else drop_to_slash r
  end.

(** [filepath.Dir]: [Clean] of the path up to its last separator. *)
Definition Dir (path : string) : string :=
  Clean (string_of_list_ascii (rev (drop_to_slash (rev (list_ascii_of_string path))))).

End GoLib.

Import GoLib.

(* ------------------------------------------------------------------ *)
(** ** The field analysis of [GenerateCode] (step 4A) *)

Module Analysis.
Local Open Scope list_scope.

(** [TemplateData]. *)
Record TemplateData := mkTemplateData {
  td_PackageName : string;
  td_Imports : list string;
  td_StructName : string;
  td_Fields : list Field;
  td_FieldMap : gmap string string;
  td_NeedsErrVarRead : bool;
  td_NeedsErrVarWrite : bool;
  td_NeedsBVar : bool
}.

(** The local variables of the loop over the fields. *)
Record Needs := mkNeeds {
  fieldMap : gmap string string;
  needsBinary : bool;
  needsFmt : bool;
  needsErrVarRead : bool;
  needsErrVarWrite : bool;
  needsBVar : bool
}.

Definition is_numeric_type (t : string) : bool :=
  existsb (String.eqb t) numeric_types.

(** [_, errConv := strconv.Atoi(field.Length); errConv == nil &&
    field.Length != "0"]. *)
Definition fixed_nonzero_length (l : string) : bool :=
  match Atoi l with
  | Some _ => negb (String.eqb l "0")
  | None => false
  end.

(** One iteration of [for _, field := range structDef.Fields]. *)
Definition field_step (st : Needs) (field : Field) : Needs :=
  let fm := <[f_Name field := f_Type field]> (fieldMap st) in
  let '(nb, nf, nbv, fieldUsesErrRead, fieldUsesErrWrite) :=
    if is_numeric_type (f_Type field) then
      (true, true, needsBVar st, true, true)
    else if String.eqb (f_Type field) "string" then
      (needsBinary st, true, true,
       negb (String.eqb (f_Length field) "")
       && fixed_nonzero_length (f_Length field), false)
    else if String.eqb (f_Type field) "[]byte" then
      (needsBinary st, true, needsBVar st,
       negb (String.eqb (f_Length field) ""), true)
    else
      (needsBinary st, true, needsBVar st, false, false) in
  mkNeeds fm nb nf (needsErrVarRead st || fieldUsesErrRead)
    (needsErrVarWrite st || fieldUsesErrWrite) nbv.

Definition analyse_fields (fields : list Field) : Needs :=
  fold_left field_step fields (mkNeeds ∅ false false false false false).

(** The keys of [requiredImports]. *)
Definition requiredImports (fields : list Field) (st : Needs) : gset string :=
  let imps : gset string := {["io"]} in
  let imps := if needsBinary st then {["encoding/binary"]} ∪ imps else imps in
  if needsFmt st || negb (Nat.eqb (List.length fields) 0)
  then {["fmt"]} ∪ imps else imps.

(** [importsList]: the keys in [range] order, then [sort.Strings]. *)
Definition importsList (fields : list Field) (st : Needs) : list string :=
  sort_Strings (elements (requiredImports fields st)).

(** The [TemplateData] built for one struct (steps 4A and 4B). *)
Definition template_data (packageName structName : string) (structDef : Struct)
  : TemplateData :=
  let fields := s_Fields structDef in
  let st := analyse_fields fields in
  mkTemplateData packageName (importsList fields st) structName fields
    (fieldMap st) (needsErrVarRead st) (needsErrVarWrite st) (needsBVar st).

End Analysis.

(* ------------------------------------------------------------------ *)
(** ** The selection prompts of [main.go] *)

Module Selection.
Local Open Scope list_scope.

Inductive SelErr :=
| ErrReadInput
| ErrInvalidSelection (part : string).

Section Select.
Context {A : Type}.
(** The key under which duplicates are removed. *)
Variable key : A -> string.

(** The loop over [parts]: [selected] is the selection so far. *)
Fixpoint select_parts (items : list A) (parts : list string) (selected : list A)
  : list A + SelErr :=
  match parts with
  | [] => inl selected
  | part :: rest =>
      let trimmedPart := TrimSpace part in
      if String.eqb trimmedPart "" then select_parts items rest selected else
      match Atoi trimmedPart with
      | None => inr (ErrInvalidSelection trimmedPart)
      | Some idx =>
          if ((idx <? 1) || (Z.of_nat (List.length items) <? idx))%Z
          then inr (ErrInvalidSelection trimmedPart)
          else match items !! Z.to_nat (idx - 1) with
               | Some x => select_parts items rest (selected ++ [x])
               | None => inr (ErrInvalidSelection trimmedPart)
               end
      end
  end.

(** The duplicate removal with the [seen] map. *)
Fixpoint dedupe (seen : gset string) (l : list A) (acc : list A) : list A :=
  match l with
  | [] => acc
  | x :: r =>
      if bool_decide (key x ∈ seen) then dedupe seen r acc
      else dedupe ({[key x]} ∪ seen) r (acc ++ [x])
  end.

(** The selection from [items], given the line read from standard input
    ([None] when [reader.ReadString] fails). *)
Definition show_selection (items : list A) (input : option string)
  : list A + SelErr :=
  if Nat.eqb (List.length items) 0 then inl [] else
  match input with
  | None => inr ErrReadInput
  | Some input =>
      let input := TrimSpace input in
      if String.eqb input "" then inl items else
      match select_parts items (Split input ","%char) [] with
      | inr e => inr e
      | inl selectedItems => inl (dedupe ∅ selectedItems [])
      end
  end.

End Select.

(** [showSourceFileSelection]: duplicates are files. *)
Definition showSourceFileSelection : list string -> option string -> list string + SelErr :=
  show_selection (fun file => file).

(** [showConfigSelection]: duplicates are configurations of one [Name]. *)
Definition showConfigSelection
  : list Config.FormatConfig -> option string -> list Config.FormatConfig + SelErr :=
  show_selection Config.fc_Name.

End Selection.

(* ------------------------------------------------------------------ *)
(** ** [config/defaults.go] *)

Module Defaults.

Record formatConfig := mk_formatConfig {
  d_Name : string;
  d_YAMLFile : string;
  d_OutputDir : string;
  d_TargetStub : string
}.

Section Lower.

(** [strings.ToLower]. *)
Variable ToLower : string -> string.

(** [init]: [formatDefaults] from "formats.json", given the outcome of
    [ioutil.ReadFile] ([None] for an error) and of [json.Unmarshal]. *)
Definition init_formatDefaults (data : option string)
    (unmarshal : string -> option (list formatConfig)) : gmap string formatConfig :=
  match data with
  | None => ∅
  | Some data =>
      match unmarshal data with
      | None => ∅
      | Some formats =>
          fold_left (fun m f => <[ToLower (d_Name f) := f]> m) formats ∅
      end
  end.

(** [GetDefaults]. *)
Definition GetDefaults (formatDefaults : gmap string formatConfig) (format : string)
  : string * string * string :=
  match formatDefaults !! ToLower format with
  | Some f => (d_YAMLFile f, d_OutputDir f, d_TargetStub f)
  | None => (format ++ ".yml", ToLower format, format ++ "_stubs.go")
  end.

End Lower.

End Defaults.

(* ------------------------------------------------------------------ *)
(** ** [GetGoModulePath] ([utils/get_module.go], [main.go]) *)

Module ModulePath.

Inductive ModErr := ErrGoList.

Fixpoint first_module_line (lines : list string) : option string :=
  match lines with
  | [] => None
  | line :: rest =>
      if HasPrefix line "module " then Some line else first_module_line rest
  end.

(** [GetGoModulePath], given the output of [go list -m] ([None] when the
    command fails) and the contents of "go.mod" ([None] when it cannot be
    read). *)
Definition GetGoModulePath (goListOutput goMod : option string) : string + ModErr :=
  match goListOutput with
  | Some output => inl (TrimSpace output)
  | None =>
      match goMod with
      | None => inr ErrGoList
      | Some modData =>
          match first_module_line (Split modData "010"%char) with
          | Some line => inl (TrimSpace (TrimPrefix line "module "))
          | None => inr ErrGoList
          end
      end
  end.

End ModulePath.

(* ------------------------------------------------------------------ *)
(** ** [runBootstrap] of [main.go] *)

Module Bootstrap.
Import Config.
Local Open Scope list_scope.

Definition sourceDir : string := "sources".
Definition formatsDir : string := "formats".

Record DirEntry := mkDirEntry { e_Name : string; e_IsDir : bool }.

(** The YAML files offered for bootstrapping, from the entries of
    [ioutil.ReadDir(sourceDir)]. *)
Definition yaml_files (files : list DirEntry) : list string :=
  sort_Strings
    (map (fun file => Join sourceDir (e_Name file))
       (List.filter (fun file => negb (e_IsDir file)
                            && (HasSuffix (e_Name file) ".yml"
                                || HasSuffix (e_Name file) ".yaml")) files)).

Section Derive.

(** [strings.ToLower]. *)
Variable ToLower : string -> string.

(** The names derived from a YAML path: [outputDir], [packageName] and
    [formatName]. *)
Definition derive (yamlFile : string) : string * string * string :=
  let baseName := TrimSuffix (Base yamlFile) (Ext yamlFile) in
  let outputDir := Join formatsDir (ToLower baseName) in
  let packageName := ToLower baseName in
  let formatName := Generate.Title packageName in
  (outputDir, packageName, formatName).

(** [for i, cfg := range currentConfigs { configMap[cfg.YAMLFile] = i }]. *)
Fixpoint build_configMap (i : nat) (cfgs : list FormatConfig) (m : gmap string nat)
  : gmap string nat :=
  match cfgs with
  | [] => m
  | cfg :: rest => build_configMap (S i) rest (<[fc_YAMLFile cfg := i]> m)
  end.

Section Update.
(** Whether [ValidateAndReformYAML(yamlFile, outputDir)] succeeds. *)
Variable validate : string -> string -> bool.

(** The loop over the selected files: the configurations and
    [configUpdated] afterwards, or [None] where Go would panic on an
    index out of range. *)
Fixpoint update_configs (configMap : gmap string nat) (selected : list string)
    (currentConfigs : list FormatConfig) (configUpdated : bool)
  : option (list FormatConfig * bool) :=
  match selected with
  | [] => Some (currentConfigs, configUpdated)
  | yamlFile :: rest =>
      let '(outputDir, packageName, formatName) := derive yamlFile in
      if negb (validate yamlFile outputDir)
      then update_configs configMap rest currentConfigs configUpdated
      else
        match configMap !! yamlFile with
        | Some index =>
            match currentConfigs !! index with
            | None => None
            | Some c =>
                update_configs configMap rest
                  (<[index := mkFormatConfig (fc_Name c) (fc_YAMLFile c)
                                outputDir packageName]> currentConfigs) true
            end
        | None =>
            update_configs configMap rest
              (currentConfigs ++ [mkFormatConfig formatName yamlFile outputDir packageName])
              true
        end
  end.

(** Lines 113-159: the configuration map, then the loop. *)
Definition bootstrap_configs (currentConfigs : list FormatConfig)
    (selectedYamlFiles : list string) : option (list FormatConfig * bool) :=
  update_configs (build_configMap 0 currentConfigs ∅) selectedYamlFiles
    currentConfigs false.

End Update.

End Derive.

End Bootstrap.

(* ------------------------------------------------------------------ *)
(** ** The test template data of [generateTestScript] *)

Module TestScript.

Record TestTemplateData := mkTestTemplateData {
  t_PackageName : string;
  t_FormatDir : string;
  t_FirstStructName : string;
  t_GoModulePath : string
}.

Inductive TestErr := ErrReadYAML | ErrParseYAML | ErrNoStructs.

(** Steps 1 and 2 of [generateTestScript], given the outcome of
    [ioutil.ReadFile] ([None] for an error) and the keys of
    [tempFormat.Structs] in [range] order ([None] for a parse error). *)
Definition test_template_data (yamlData : option string)
    (structKeys : string -> option (list string))
    (outputDir packageName goModulePath : string) : TestTemplateData + TestErr :=
  match yamlData with
  | None => inr ErrReadYAML
  | Some yamlData =>
      match structKeys yamlData with
      | None => inr ErrParseYAML
      | Some names =>
          if Nat.eqb (List.length names) 0 then inr ErrNoStructs else
          match sort_Strings names with
          | [] => inr ErrNoStructs
          | firstStructName :: _ =>
              inl (mkTestTemplateData packageName (Base (Dir outputDir))
                     firstStructName goModulePath)
          end
      end
  end.

End TestScript.

(* ------------------------------------------------------------------ *)
(** ** The loop of [runGeneration] over the selected descriptors *)

Module RunGen.
Import Config Generate.
Local Open Scope list_scope.

(** The errors returned by [GenerateCode]: one of steps 1-3 (reading or
    unmarshalling the YAML, [os.MkdirAll], parsing the template), or an
    error of the per-record loop. *)
Inductive CodeErr :=
| ErrSetup
| ErrGen (e : GenErr).

(** What [runGeneration] does with one selected descriptor. *)
Inductive Outcome :=
| OSkipped
| OFailed (files : gmap string string) (emitted : list string) (err : CodeErr)
| OGenerated (files : gmap string string) (emitted : list string) (testRequested : bool).

Section Run.

(** Whether the reformed YAML exists, or else [ValidateAndReformYAML]
    succeeds (lines 222-229). *)
Variable reformed_ok : FormatConfig -> bool.
(** Whether [os.MkdirAll(config.OutputDir)] succeeds (lines 235-238). *)
Variable mkdir_ok : FormatConfig -> bool.
(** Steps 1-3 of [GenerateCode]: the records of the descriptor in the
    order chosen by [range], or [None] for an error. *)
Variable load : FormatConfig -> option (list (string * Struct)).
(** [tmpl.Execute] and [ioutil.WriteFile] for the descriptor. *)
Variable execute : FormatConfig -> string -> Struct -> option string.
Variable write_ok : FormatConfig -> string -> bool.
(** The generated files of the output directory after [reset]. *)
Variable files0 : FormatConfig -> gmap string string.
(** [strings.EqualFold(strings.TrimSpace(response), "y")]. *)
Variable answer_yes : string -> bool.

(** [generator.GenerateCode] for a descriptor: the files of its output
    directory, the records written, and the error returned. *)
Definition GenerateCode (c : FormatConfig)
  : gmap string string * list string * option CodeErr :=
  match load c with
  | None => (files0 c, [], Some ErrSetup)
  | Some order =>
      let '(files, emitted, err) :=
        generate_structs (execute c) (write_ok c) order (files0 c) in
      (files, emitted, option_map ErrGen err)
  end.

(** [reader.ReadString('\n')] on the remaining lines of standard input:
    the empty string at end of input. *)
Definition read_line (input : list string) : string * list string :=
  match input with
  | [] => ("", [])
  | line :: rest => (line, rest)
  end.

(** Lines 213-264: [for _, config := range selectedConfigs]; each
    [continue] goes on with the next descriptor.  A line of standard
    input is read only after a successful generation.  Result: the
    outcome of each descriptor, with its name, and the unread input. *)
Fixpoint run_generation (selectedConfigs : list FormatConfig) (input : list string)
  : list (string * Outcome) * list string :=
  match selectedConfigs with
  | [] => ([], input)
  | config :: rest =>
      if negb (reformed_ok config) || negb (mkdir_ok config) then
        let '(outs, input') := run_generation rest input in
        ((fc_Name config, OSkipped) :: outs, input')
      else
        match GenerateCode config with
        | (files, emitted, Some err) =>
            let '(outs, input') := run_generation rest input in
            ((fc_Name config, OFailed files emitted err) :: outs, input')
        | (files, emitted, None) =>
            let '(response, input1) := read_line input in
            let '(outs, input') := run_generation rest input1 in
            ((fc_Name config, OGenerated files emitted (answer_yes response)) :: outs,
             input')
        end
  end.

End Run.

End RunGen.

(* ================================================================== *)
(** * Properties *)

(* ------------------------------------------------------------------ *)
(** ** Configuration loading *)

Module ConfigProps.
Import Config.

(** C10: a configuration file that does not exist yields the empty
    configuration list and no error; an error is returned exactly when
    an existing file cannot be read or its JSON cannot be parsed. *)
Theorem LoadConfig_missing_is_empty
    (readFile : string -> ReadResult)
    (unmarshal : string -> option (list FormatConfig)) (p : string) :
  (readFile p = RNotExist -> LoadConfig readFile unmarshal p = ([], None)) /\
  (snd (LoadConfig readFile unmarshal p) <> None <->
   readFile p = RReadErr \/
   exists data, readFile p = ROk data /\ unmarshal data = None).
Proof.
  unfold LoadConfig.
  split.
  - intros ->. reflexivity.
  - destruct (readFile p) as [| |data] eqn:Hr; simpl.
    + split; [congruence|]. intros [H|[d [H _]]]; discriminate.
    + split; [auto|]. intros _. discriminate.
    + destruct (unmarshal data) eqn:Hu; simpl.
      * split; [congruence|].
        intros [H|[d [H1 H2]]]; [discriminate|]. injection H1 as <-. congruence.
      * split; [|intros _; discriminate]. intros _. right. eauto.
Qed.

End ConfigProps.

(* ------------------------------------------------------------------ *)
(** ** [CalculatePaddedSize] *)

Module PaddedProps.
Import Padded.
Local Open Scope Z_scope.

Lemma wrap64_small (z : Z) : (- 2 ^ 63 <= z < 2 ^ 63)%Z -> wrap64 z = z.
Proof.
  intros H. unfold wrap64.
  rewrite Z.mod_small by lia. lia.
Qed.

Lemma float64_of_int_small (z : Z) : (Z.abs z <= 2 ^ 53)%Z -> float64_of_int z = z.
Proof.
  intros H. unfold float64_of_int.
  destruct (Z.leb_spec (Z.abs z) (2 ^ 53)); [reflexivity | lia].
Qed.

(** C7, as stated: for every bits-per-pixel value that is a positive
    multiple of 8, the result is the unbounded formula.  This fails:
    with width = height = 2^31 and 32 bits per pixel the total 2^64
    wraps around in Go's 64-bit [int] to 0. *)
Lemma CalculatePaddedSize_formula_counterexample :
  ~ (forall width height bitsPerPixel : Z,
        (0 < bitsPerPixel)%Z -> (bitsPerPixel mod 8 = 0)%Z ->
        CalculatePaddedSize width height bitsPerPixel
        = inl (padded_size_formula width height bitsPerPixel)).
Proof.
  intros H.
  specialize (H (2 ^ 31)%Z (2 ^ 31)%Z 32%Z ltac:(lia) ltac:(reflexivity)).
  vm_compute in H. discriminate H.
Qed.

(** C7, amended: for non-negative integer width and height and a
    bits-per-pixel value that is a positive multiple of 8 (below 2^63),
    whenever the exact total [height * (bytesPerRow + padding)] is at
    most 2^53, [CalculatePaddedSize] returns exactly that total. *)
Theorem CalculatePaddedSize_in_range (width height bitsPerPixel : Z)
    (Hw : (0 <= width)%Z) (Hh : (0 <= height)%Z)
    (Hb : (0 < bitsPerPixel < 2 ^ 63)%Z) (H8 : (bitsPerPixel mod 8 = 0)%Z)
    (Hr : (padded_size_formula width height bitsPerPixel <= 2 ^ 53)%Z) :
  CalculatePaddedSize width height bitsPerPixel
  = inl (padded_size_formula width height bitsPerPixel).
Proof.
  unfold CalculatePaddedSize, padded_size_formula in *.
  assert (Hq : Z.quot bitsPerPixel 8 = bitsPerPixel / 8)
    by (apply Z.quot_div_nonneg; lia).
  rewrite Hq.
  assert (Hpos : (1 <= bitsPerPixel / 8)%Z).
  { pose proof (Z.div_mod bitsPerPixel 8 ltac:(lia)). lia. }
  destruct (Z.eqb_spec bitsPerPixel 0); [lia|].
  destruct (Z.leb_spec (bitsPerPixel / 8) 0); [lia|].
  set (bpr := (width * (bitsPerPixel / 8))%Z) in *.
  assert (Hbpr : (0 <= bpr)%Z) by (unfold bpr; nia).
  set (pad := Z.rem (4 - Z.rem bpr 4) 4) in *.
  assert (Hpad : (0 <= pad < 4)%Z).
  { unfold pad. pose proof (Z.rem_bound_pos bpr 4 Hbpr ltac:(lia)).
    apply Z.rem_bound_pos; lia. }
  destruct (Z.eq_dec height 0) as [->|Hh0].
  - rewrite !Z.mul_0_l. rewrite (wrap64_small 0) by lia.
    rewrite float64_of_int_small by (simpl; lia). reflexivity.
  - assert (Hrow : (bpr + pad <= 2 ^ 53)%Z) by nia.
    rewrite (wrap64_small bpr) by lia.
    fold pad.
    rewrite (wrap64_small (bpr + pad)) by lia.
    rewrite (wrap64_small (height * (bpr + pad))) by nia.
    rewrite float64_of_int_small by (rewrite Z.abs_eq; nia).
    reflexivity.
Qed.

Lemma CalculatePaddedSize_in_range_witness :
  CalculatePaddedSize 2 2 24 = inl 16%Z.
Proof.
  exact (CalculatePaddedSize_in_range 2 2 24 ltac:(lia) ltac:(lia)
           ltac:(lia) ltac:(reflexivity) ltac:(vm_compute; discriminate)).
Defined.

End PaddedProps.

(* ------------------------------------------------------------------ *)
(** ** The generated codecs *)

Module CodecProps.
Import Codec.
Local Open Scope Z_scope.
Local Open Scope list_scope.

Lemma le_uint32_put_uint32 (v : Z) : is_uint32 v -> le_uint32 (put_uint32 v) = v.
Proof.
  unfold is_uint32, le_uint32, put_uint32. intros Hv.
  change (2 ^ 8) with 256 in *. change (2 ^ 16) with (256 * 256).
  change (2 ^ 24) with (256 * 256 * 256). change (2 ^ 32) with 4294967296 in Hv.
  rewrite <- !Z.div_div by lia.
  set (a := v / 256). set (b := a / 256). set (c := b / 256).
  pose proof (Z.div_mod v 256 ltac:(lia)).
  pose proof (Z.div_mod a 256 ltac:(lia)).
  pose proof (Z.div_mod b 256 ltac:(lia)).
  pose proof (Z.mod_pos_bound v 256 ltac:(lia)).
  pose proof (Z.mod_pos_bound a 256 ltac:(lia)).
  pose proof (Z.mod_pos_bound b 256 ltac:(lia)).
  assert (Hc : 0 <= c < 256) by lia.
  rewrite (Z.mod_small c 256 Hc).
  lia.
Qed.

Lemma binary_Read_put_uint32 (v : Z) (rest : bytes) :
  is_uint32 v -> binary_Read_uint32 (put_uint32 v ++ rest) = (inl v, rest).
Proof.
  intros Hv. unfold binary_Read_uint32.
  rewrite <- (le_uint32_put_uint32 v Hv) at 2.
  unfold put_uint32. reflexivity.
Qed.

(** [io.ReadAtLeast] with enough data: exactly the first [n] bytes of
    the data are read, whatever the pieces, and the rest is left. *)
Lemma read_at_least_ok (n : nat) (got : bytes) (cs : list bytes) (e : IOErr) :
  (n <= List.length (List.concat cs))%nat ->
  exists cs', read_at_least n got cs e = (got ++ take n (List.concat cs), cs', None)
              /\ List.concat cs' = drop n (List.concat cs).
Proof.
  revert n got. induction cs as [|c cs IH]; intros n got Hn.
  - simpl in Hn. assert (n = 0%nat) as -> by lia.
    exists []. simpl. rewrite app_nil_r. split; reflexivity.
  - simpl. destruct (Nat.eqb_spec n 0) as [->|Hn0].
    + exists (c :: cs). rewrite app_nil_r. split; reflexivity.
    + simpl in Hn. rewrite length_app in Hn.
      destruct (Nat.ltb_spec (List.length c) n) as [Hlt|Hge].
      * destruct (IH (n - List.length c)%nat (got ++ c) ltac:(lia)) as (cs' & H1 & H2).
        exists cs'. rewrite H1, take_app, drop_app, H2.
        rewrite (take_ge c n) by lia. rewrite (drop_ge c n) by lia.
        rewrite app_assoc. split; reflexivity.
      * destruct (Nat.ltb_spec n (List.length c)) as [Hlt'|Hge'].
        -- exists (drop n c :: cs). rewrite take_app, drop_app.
           replace (n - List.length c)%nat with 0%nat by lia.
           rewrite app_nil_r. split; reflexivity.
        -- exists cs. rewrite take_app, drop_app.
           replace (n - List.length c)%nat with 0%nat by lia.
           rewrite (drop_ge c n) by lia. rewrite app_nil_r. split; reflexivity.
Qed.

(** [io.ReadAtLeast] with too little data: every byte is consumed and
    an error is returned; [EOF] when there was no byte at all,
    [ErrUnexpectedEOF] after some bytes when the reader ends at [EOF]. *)
Lemma read_at_least_short (n : nat) (got : bytes) (cs : list bytes) (e : IOErr) :
  (List.length (List.concat cs) < n)%nat ->
  read_at_least n got cs e
  = (got ++ List.concat cs, [],
     Some (match got ++ List.concat cs, e with
           | [], _ => e
           | _, EOF => ErrUnexpectedEOF
           | _, _ => e
           end)).
Proof.
  revert n got. induction cs as [|c cs IH]; intros n got Hn.
  - simpl in Hn. simpl. destruct (Nat.eqb_spec n 0); [lia|].
    rewrite app_nil_r. reflexivity.
  - simpl in Hn. rewrite length_app in Hn. simpl.
    destruct (Nat.eqb_spec n 0); [lia|].
    destruct (Nat.ltb_spec (List.length c) n); [|lia].
    rewrite IH by lia. rewrite app_assoc. reflexivity.
Qed.

(** [binary.Read] of a [uint32] from any reader holding at least four
    bytes: the first four bytes, little-endian. *)
Lemma binary_Read_uint32_io_ok (r : Reader) :
  (4 <= List.length (List.concat (r_chunks r)))%nat ->
  exists r', binary_Read_uint32_io r = (inl (le_uint32 (take 4 (List.concat (r_chunks r)))), r')
             /\ List.concat (r_chunks r') = drop 4 (List.concat (r_chunks r))
             /\ r_err r' = r_err r.
Proof.
  intros H. unfold binary_Read_uint32_io, io_ReadFull.
  destruct (read_at_least_ok 4 [] (r_chunks r) (r_err r) H) as (cs' & -> & Hcs).
  exists (mkReader cs' (r_err r)). simpl. auto.
Qed.

(** [binary.Read] of a [uint32] from a reader holding fewer than four
    bytes fails. *)
Lemma binary_Read_uint32_io_short (r : Reader) :
  (List.length (List.concat (r_chunks r)) < 4)%nat ->
  exists e r', binary_Read_uint32_io r = (inr e, r').
Proof.
  intros H. unfold binary_Read_uint32_io, io_ReadFull.
  rewrite read_at_least_short by exact H. simpl. eauto.
Qed.

(** [binary.Read] of a [uint32] from a reader that ends at [EOF] depends
    only on the bytes it holds, not on how it cuts them into pieces: it
    is [binary_Read_uint32] on those bytes. *)
Lemma binary_Read_uint32_io_eof (r : Reader) :
  r_err r = EOF ->
  fst (binary_Read_uint32_io r) = fst (binary_Read_uint32 (List.concat (r_chunks r))) /\
  List.concat (r_chunks (snd (binary_Read_uint32_io r)))
  = snd (binary_Read_uint32 (List.concat (r_chunks r))).
Proof.
  intros He. destruct (Nat.lt_ge_cases (List.length (List.concat (r_chunks r))) 4) as [Hs|Hl].
  - unfold binary_Read_uint32_io, io_ReadFull.
    rewrite read_at_least_short by exact Hs. rewrite He. simpl.
    destruct (List.concat (r_chunks r)) as [|b l] eqn:Hc; [split; reflexivity|].
    simpl in Hs |- *. destruct (Nat.ltb_spec (S (List.length l)) 4); [|lia].
    split; reflexivity.
  - destruct (binary_Read_uint32_io_ok r Hl) as (r' & -> & Hr' & _). simpl.
    unfold binary_Read_uint32.
    destruct (List.concat (r_chunks r)) as [|b l] eqn:Hc; [simpl in Hl; lia|].
    destruct (Nat.ltb_spec (List.length (b :: l)) 4); [lia|]. auto.
Qed.

(** The first [Read] of [Header.Read] asks for 2 bytes and gets those of
    the reader's first piece that fit. *)
Definition first_piece (r : Reader) : bytes :=
  match r_chunks r with
  | [] => []
  | c :: _ => take 2 c
  end.

Lemma io_Read_2 (r : Reader) (c : bytes) (cs : list bytes) :
  r_chunks r = c :: cs ->
  exists r', io_Read 2 r
             = (first_piece r ++ replicate (2 - List.length (first_piece r)) 0, r', None)
             /\ List.concat (r_chunks r') = drop (List.length (first_piece r)) (List.concat (r_chunks r))
             /\ r_err r' = r_err r.
Proof.
  intros Hr. unfold io_Read, first_piece. rewrite Hr. rewrite length_take.
  assert (Ht : take (Nat.min 2 (List.length c)) c = take 2 c).
  { destruct (Nat.le_ge_cases 2 (List.length c)).
    - rewrite Nat.min_l by lia. reflexivity.
    - rewrite Nat.min_r by lia. rewrite take_ge by lia. rewrite take_ge by lia.
      reflexivity. }
  rewrite Ht. eexists. split; [reflexivity|]. cbn [r_chunks r_err].
  split; [|reflexivity]. cbn [List.concat]. rewrite drop_app.
  destruct (Nat.ltb_spec (Nat.min 2 (List.length c)) (List.length c)) as [Hlt|Hge].
  - cbn [List.concat]. replace (Nat.min 2 (List.length c) - List.length c)%nat
      with 0%nat by lia. reflexivity.
  - rewrite (drop_ge c) by lia. replace (Nat.min 2 (List.length c) - List.length c)%nat
      with 0%nat by lia. reflexivity.
Qed.

(** [Header.Write] to a [bytes.Buffer]. *)
Lemma Header_Write_buffer (h : Header) :
  Header_Write h WBuffer
  = (Signature h ++ put_uint32 (FileSize h) ++ put_uint32 (Reserved h)
       ++ put_uint32 (DataOffset h), None).
Proof. reflexivity. Qed.

(** C1: the generated [ImageData] codec does not reproduce [PixelData]:
    for a 1x1 image with the 3 bytes of pixel data its layout declares
    ([Width * Height * 3]), [Write] emits only [Width] and [Height], and
    [Read] leaves [PixelData] at its zero value. *)
Theorem ImageData_roundtrip_drops_PixelData :
  let d := mkImageData 1 1 [1; 2; 3] in
  ImageData_Write d = ([1; 0; 0; 0; 1; 0; 0; 0], None) /\
  ImageData_Read ImageData_zero (fst (ImageData_Write d))
  = (mkImageData 1 1 [], [], None) /\
  PixelData (fst (fst (ImageData_Read ImageData_zero (fst (ImageData_Write d)))))
  <> PixelData d.
Proof.
  vm_compute. split; [reflexivity|]. split; [reflexivity|]. discriminate.
Qed.

(** A reader that returns its data one byte per [Read] call. *)
Definition one_byte_reader (bs : bytes) : Reader :=
  mkReader (map (fun b => [b]) bs) EOF.

(** C2: [Header.Write] neither checks nor adjusts the length of the
    [Signature], declared as 2 bytes: to a [bytes.Buffer] the 3-byte
    signature "BMX" is written as it is, 15 bytes in all, without error.
    And [Header.Read] reads the [Signature] with a single [r.Read], not
    [io.ReadFull]: from a reader that returns one byte per call, the
    14 bytes written for the header "BM", 70, 0, 54 give a [Signature]
    of 1 byte padded with a zero byte, and the three [uint32] fields
    are read one byte further on, without error. *)
Theorem Header_fixed_length_unchecked :
  Header_Write (mkHeader [66; 77; 88] 70 0 54) WBuffer
  = ([66; 77; 88; 70; 0; 0; 0; 0; 0; 0; 0; 54; 0; 0; 0], None) /\
  Header_Read Header_zero
    (one_byte_reader (fst (Header_Write (mkHeader [66; 77] 70 0 54) WBuffer)))
  = (mkHeader [66; 0] 17997 0 13824, mkReader [[0]] EOF, None).
Proof. split; vm_compute; reflexivity. Qed.

End CodecProps.

(* ------------------------------------------------------------------ *)
(** ** The validation/reformation walk *)

Module ValidatorProps.
Import Validator.

(** The fields the walk reforms: a [string] or [[]byte] field whose
    trimmed [Length] is the legacy placeholder "...". *)
Definition is_placeholder_field (f : Field) : bool :=
  (String.eqb (f_Type f) "string" || String.eqb (f_Type f) "[]byte") &&
  String.eqb (TrimSpace (f_Length f)) "...".

Definition reform_field (f : Field) : Field :=
  if is_placeholder_field f then set_Length f NEEDS_MANUAL_LENGTH else f.

Lemma string_or_bytes_not_blank (f : Field) :
  (String.eqb (f_Type f) "string" || String.eqb (f_Type f) "[]byte") = true ->
  String.eqb (TrimSpace (f_Type f)) "" = false.
Proof.
  intros H. apply orb_true_iff in H.
  destruct H as [H|H]; apply String.eqb_eq in H; rewrite H; reflexivity.
Qed.

Lemma validate_field_placeholder (f : Field) :
  is_placeholder_field f = true ->
  validate_field f
  = mkOutcome (set_Length f NEEDS_MANUAL_LENGTH) 1 (condition_errors f).
Proof.
  unfold is_placeholder_field. intros H.
  apply andb_true_iff in H as [Hty Htr].
  unfold validate_field.
  rewrite (string_or_bytes_not_blank f Hty), Hty.
  destruct (String.eqb (f_Length f) "") eqn:Hl.
  - apply String.eqb_eq in Hl. rewrite Hl in Htr. discriminate.
  - unfold length_branch. rewrite Htr. reflexivity.
Qed.

Lemma validate_field_no_placeholder (f : Field) :
  is_placeholder_field f = false ->
  o_field (validate_field f) = f /\ o_reformations (validate_field f) = 0.
Proof.
  unfold is_placeholder_field, validate_field. intros H.
  destruct (String.eqb (TrimSpace (f_Type f)) "") eqn:Ht; [auto|].
  destruct (String.eqb (f_Type f) "string" || String.eqb (f_Type f) "[]byte") eqn:Hs;
    [|auto].
  simpl in H.
  destruct (String.eqb (f_Length f) ""); [auto|].
  unfold length_branch. rewrite H. auto.
Qed.

Lemma validate_field_reform (f : Field) :
  o_field (validate_field f) = reform_field f /\
  o_reformations (validate_field f) = if is_placeholder_field f then 1 else 0.
Proof.
  unfold reform_field.
  destruct (is_placeholder_field f) eqn:Hp.
  - rewrite validate_field_placeholder by exact Hp. auto.
  - exact (validate_field_no_placeholder f Hp).
Qed.

Lemma validate_fields_reform (fs : list Field) :
  fst (fst (validate_fields fs)) = map reform_field fs /\
  snd (fst (validate_fields fs))
  = List.length (List.filter is_placeholder_field fs).
Proof.
  induction fs as [|f fs IH]; [auto|].
  simpl. destruct (validate_fields fs) as [[fs' r] e]. simpl in *.
  destruct IH as [-> ->].
  destruct (validate_field_reform f) as [-> ->].
  destruct (is_placeholder_field f); auto.
Qed.

(** C5, as stated: every field whose trimmed [Length] is "..." is
    rewritten to [NEEDS_MANUAL_LENGTH] with one reformation, whatever its
    type.  This fails for a [uint32] field: its length is left as it is
    and no reformation is counted. *)
Lemma placeholder_any_type_counterexample :
  ~ (forall f : Field,
        TrimSpace (f_Length f) = "..." ->
        o_field (validate_field f) = set_Length f NEEDS_MANUAL_LENGTH /\
        o_reformations (validate_field f) = 1).
Proof.
  intros H.
  destruct (H (mkField "Count" "uint32" "" "..." "" "") eq_refl) as [_ Hr].
  discriminate Hr.
Qed.

(** C5, amended: a single pass over the records replaces the [Length] of
    exactly the fields of type "string" or "[]byte" whose trimmed
    [Length] is "..." by [NEEDS_MANUAL_LENGTH], leaves every other field
    unchanged, keeps the field order, and counts one reformation per
    replaced field, independently of the surrounding fields. *)
Theorem placeholder_reform_string_bytes (ss : list (string * Struct)) :
  fst (fst (validate_structs ss))
  = map (fun nsd => (fst nsd, mkStruct (map reform_field (s_Fields (snd nsd))))) ss /\
  snd (fst (validate_structs ss))
  = sum_list (map (fun nsd =>
                     List.length (List.filter is_placeholder_field (s_Fields (snd nsd))))
                  ss).
Proof.
  induction ss as [|[name sd] ss IH]; [auto|].
  simpl.
  pose proof (validate_fields_reform (s_Fields sd)) as [Hf Hr].
  destruct (validate_fields (s_Fields sd)) as [[fs' r1] e1].
  destruct (validate_structs ss) as [[ss' r2] e2].
  simpl in *. destruct IH as [-> ->]. subst. auto.
Qed.

Lemma validate_field_idem (f : Field) :
  o_errors (validate_field f) = 0 ->
  validate_field (o_field (validate_field f))
  = mkOutcome (o_field (validate_field f)) 0 0.
Proof.
  destruct (is_placeholder_field f) eqn:Hp.
  - rewrite (validate_field_placeholder f Hp). simpl. intros Hc.
    unfold is_placeholder_field in Hp. apply andb_true_iff in Hp as [Hty _].
    unfold validate_field.
    change (f_Type (set_Length f NEEDS_MANUAL_LENGTH)) with (f_Type f).
    rewrite (string_or_bytes_not_blank f Hty), Hty.
    unfold length_branch.
    assert (Hc' : condition_errors (set_Length f NEEDS_MANUAL_LENGTH) = 0)
      by exact Hc.
    change (f_Length (set_Length f NEEDS_MANUAL_LENGTH)) with NEEDS_MANUAL_LENGTH.
    assert (Ht : String.eqb (TrimSpace NEEDS_MANUAL_LENGTH) "..." = false)
      by reflexivity.
    assert (Ha : Atoi NEEDS_MANUAL_LENGTH = None) by reflexivity.
    assert (Hv : IsValidLengthExpression NEEDS_MANUAL_LENGTH = true) by reflexivity.
    assert (Hn : String.eqb NEEDS_MANUAL_LENGTH "" = false) by reflexivity.
    rewrite Hn, Ht. cbn iota beta.
    change (f_Length (set_Length f NEEDS_MANUAL_LENGTH)) with NEEDS_MANUAL_LENGTH.
    rewrite Ha, Hv, Hc'. reflexivity.
  - destruct (validate_field_no_placeholder f Hp) as [Hf Hr].
    destruct (validate_field f) as [f' r e] eqn:Hv. simpl in *. subst.
    intros ->. exact Hv.
Qed.

Lemma validate_fields_idem (fs fs' : list Field) (r : nat) :
  validate_fields fs = (fs', r, 0) -> validate_fields fs' = (fs', 0, 0).
Proof.
  revert fs' r.
  induction fs as [|f fs IH]; intros fs' r H; simpl in H.
  - injection H as <- _. reflexivity.
  - destruct (validate_fields fs) as [[rest r'] e] eqn:Hrest.
    injection H as <- _ He.
    assert (Hf : o_errors (validate_field f) = 0) by lia.
    assert (He0 : e = 0) by lia. subst e.
    simpl. rewrite (validate_field_idem f Hf), (IH rest r' eq_refl).
    reflexivity.
Qed.

Lemma validate_structs_idem (ss ss' : list (string * Struct)) (r : nat) :
  validate_structs ss = (ss', r, 0) -> validate_structs ss' = (ss', 0, 0).
Proof.
  revert ss' r.
  induction ss as [|[name sd] ss IH]; intros ss' r H; simpl in H.
  - injection H as <- _. reflexivity.
  - destruct (validate_fields (s_Fields sd)) as [[fs' r1] e1] eqn:Hf.
    destruct (validate_structs ss) as [[rest r2] e2] eqn:Hs.
    injection H as <- _ He.
    assert (e1 = 0) by lia. assert (e2 = 0) by lia. subst e1 e2.
    simpl. rewrite (validate_fields_idem _ _ _ Hf), (IH rest r2 eq_refl).
    reflexivity.
Qed.

(** C9: a descriptor accepted by the walk (no hard error), once
    reformed, passes a second walk unchanged, with no reformation and no
    hard error. *)
Theorem validator_idempotent (ff ff' : FileFormat) (r : nat)
    (H : validate_format ff = (ff', r, 0)) :
  validate_format ff' = (ff', 0, 0).
Proof.
  unfold validate_format in *.
  destruct (validate_structs (ff_Structs ff)) as [[ss r'] e] eqn:Hs.
  injection H as <- <- He. subst e.
  simpl. rewrite (validate_structs_idem _ _ _ Hs). reflexivity.
Qed.

Lemma validator_idempotent_witness :
  let ff := mkFileFormat "BMP" ""
              [("Header", mkStruct [mkField "Signature" "string" "" " ... " "" "";
                                     mkField "FileSize" "uint32" "" "" "" ""])] in
  let ff' := mkFileFormat "BMP" ""
              [("Header", mkStruct [mkField "Signature" "string" "" NEEDS_MANUAL_LENGTH "" "";
                                     mkField "FileSize" "uint32" "" "" "" ""])] in
  validate_format ff = (ff', 1, 0) /\ validate_format ff' = (ff', 0, 0).
Proof.
  intros ff ff'.
  assert (H : validate_format ff = (ff', 1, 0)) by reflexivity.
  split; [exact H | exact (validator_idempotent ff ff' 1 H)].
Defined.

End ValidatorProps.

(* ------------------------------------------------------------------ *)
(** ** [ValidateAndReformYAML] *)

Module ReformProps.
Import Validator KeyNorm Reform.

(** The environment in which validation passes but the reformed file
    cannot be written (for instance, a read-only output directory). *)
Definition env_write_fails : Env :=
  mkEnv true (Some "structs: {}") (fun _ => Some (GSMap []))
    (fun _ => Some (mkFileFormat "" "" [])) (fun _ => Some "structs: {}")
    (fun _ => false).

(** C3, as stated: once the descriptor is loaded and decoded, an error
    is returned if and only if the walk found a hard error.  This fails
    when writing the reformed file fails: an error is returned although
    the walk found no hard error. *)
Lemma reform_error_iff_counterexample :
  ~ (forall (ToLower : string -> string) (env : Env) (path data : string) (g : gval)
            (ff : FileFormat),
        env_mkdir_ok env = true -> env_read env = Some data ->
        env_unmarshal env data = Some g ->
        env_decode env (lowercaseFieldKeysRecursive ToLower g) = Some ff ->
        (is_error (fst (ValidateAndReformYAML ToLower env path)) = true <->
         (0 < snd (validate_format ff))%nat)).
Proof.
  intros H.
  specialize (H ToLower_ascii env_write_fails "out/empty.yml" "structs: {}" (GSMap [])
                (mkFileFormat "" "" []) eq_refl eq_refl eq_refl eq_refl).
  vm_compute in H. destruct H as [H _].
  specialize (H eq_refl). lia.
Qed.

Section Props.
(** [strings.ToLower]. *)
Variable ToLower : string -> string.

(** C3, amended: once the output directory exists and the descriptor is
    loaded and decoded, a walk with at least one hard error makes
    [ValidateAndReformYAML] return that error count and write nothing;
    a walk without hard error (warnings included) never yields a
    validation error: the result is the reformed path, with the file
    written, unless marshalling or writing the reformed file fails. *)
Theorem reform_error_iff_hard_errors (env : Env) (path data : string)
    (g : gval) (ff : FileFormat)
    (Hm : env_mkdir_ok env = true) (Hr : env_read env = Some data)
    (Hu : env_unmarshal env data = Some g)
    (Hd : env_decode env (lowercaseFieldKeysRecursive ToLower g) = Some ff) :
  let '(ff', _, e) := validate_format ff in
  ((0 < e)%nat ->
   ValidateAndReformYAML ToLower env path = (inr (ErrValidation e), None)) /\
  (e = 0 ->
   fst (ValidateAndReformYAML ToLower env path) = inl path \/
   fst (ValidateAndReformYAML ToLower env path) = inr ErrMarshal \/
   fst (ValidateAndReformYAML ToLower env path) = inr ErrWrite) /\
  (e = 0 -> forall out, env_marshal env ff' = Some out ->
   env_write_ok env out = true ->
   ValidateAndReformYAML ToLower env path = (inl path, Some out)).
Proof.
  unfold ValidateAndReformYAML.
  rewrite Hm, Hr, Hu, Hd. simpl.
  destruct (validate_format ff) as [[ff' r] e].
  split; [|split].
  - intros He. destruct (Nat.ltb_spec 0 e); [reflexivity|lia].
  - intros ->. simpl.
    destruct (env_marshal env ff') as [out|]; [|auto].
    destruct (env_write_ok env out); auto.
  - intros -> out Hmo Hw. simpl. rewrite Hmo, Hw. reflexivity.
Qed.

End Props.

(** A descriptor whose only finding is a warning (a length on a
    fixed-width field) is accepted and written. *)
Definition env_ok : Env :=
  mkEnv true (Some "structs") (fun _ => Some (GSMap []))
    (fun _ => Some (mkFileFormat "BMP" ""
                     [("Header", mkStruct [mkField "FileSize" "uint32" "" "4" "" ""])]))
    (fun _ => Some "reformed") (fun _ => true).

Lemma reform_error_iff_hard_errors_witness :
  ValidateAndReformYAML ToLower_ascii env_ok "out/bmp.yml"
  = (inl "out/bmp.yml", Some "reformed").
Proof.
  pose proof (reform_error_iff_hard_errors ToLower_ascii env_ok "out/bmp.yml" "structs"
                (GSMap [])
                (mkFileFormat "BMP" ""
                   [("Header", mkStruct [mkField "FileSize" "uint32" "" "4" "" ""])])
                eq_refl eq_refl eq_refl eq_refl) as H.
  simpl in H. destruct H as [_ [_ H]].
  exact (H eq_refl "reformed" eq_refl eq_refl).
Defined.

End ReformProps.

(* ------------------------------------------------------------------ *)
(** ** The per-record loop of [GenerateCode] *)

Module GenerateProps.
Import Generate.
Local Open Scope list_scope.

Section Loop.
Variable execute : string -> Struct -> option string.
Variable write_ok : string -> bool.

Lemma generate_structs_app (l1 l2 : list (string * Struct))
    (files : gmap string string) :
  generate_structs execute write_ok (l1 ++ l2) files
  = match generate_structs execute write_ok l1 files with
    | (files1, em1, None) =>
        let '(files2, em2, err2) := generate_structs execute write_ok l2 files1 in
        (files2, em1 ++ em2, err2)
    | (files1, em1, Some err) => (files1, em1, Some err)
    end.
Proof.
  revert files.
  induction l1 as [|[n s] l1 IH]; intros files; simpl.
  - destruct (generate_structs execute write_ok l2 files) as [[f e] r]. reflexivity.
  - destruct (execute n s) as [out|]; [|reflexivity].
    destruct (write_ok (goFileName n)); [|reflexivity].
    rewrite IH.
    destruct (generate_structs execute write_ok l1 _) as [[f1 em1] [err|]].
    + reflexivity.
    + destruct (generate_structs execute write_ok l2 f1) as [[f2 em2] r2].
      reflexivity.
Qed.

(** The files written when every record succeeds. *)
Definition write_record (files : gmap string string) (ns : string * Struct)
  : gmap string string :=
  <[goFileName (fst ns) := default "" (execute (fst ns) (snd ns))]> files.

Lemma generate_structs_all_ok (order : list (string * Struct))
    (files : gmap string string) :
  (forall n s, In (n, s) order -> execute n s <> None) ->
  (forall p, write_ok p = true) ->
  generate_structs execute write_ok order files
  = (fold_left write_record order files, map fst order, None).
Proof.
  intros Hex Hw. revert files.
  induction order as [|[n s] order IH]; intros files; simpl; [reflexivity|].
  destruct (execute n s) as [out|] eqn:He.
  - rewrite Hw. rewrite IH by (intros; apply Hex; right; assumption).
    replace (write_record files (n, s)) with (<[goFileName n := out]> files)
      by (unfold write_record; simpl; rewrite He; reflexivity).
    reflexivity.
  - exfalso. apply (Hex n s); [left; reflexivity | exact He].
Qed.

Lemma fold_write_record_perm (o1 o2 : list (string * Struct))
    (files : gmap string string) :
  o1 ≡ₚ o2 -> NoDup (map (fun ns => goFileName (fst ns)) o1) ->
  fold_left write_record o1 files = fold_left write_record o2 files.
Proof.
  intros Hp. revert files.
  induction Hp as [|x l l' Hp IH|x y l|l l' l'' Hp1 IH1 Hp2 IH2];
    intros files Hnd; simpl.
  - reflexivity.
  - apply IH. simpl in Hnd. inversion Hnd; assumption.
  - f_equal. unfold write_record.
    simpl in Hnd. inversion Hnd as [|? ? Hnin _]; subst.
    apply insert_insert_ne. intros Heq. apply Hnin. rewrite Heq. left.
  - rewrite (IH1 files Hnd). apply IH2.
    eapply (NoDup_Permutation_proper _ _ (Permutation_map _ Hp1)). exact Hnd.
Qed.

(** C8, amended: the records are emitted in the order in which [range]
    visits the Go map, which is not fixed; when every record succeeds
    and the records' file names [strings.Title(name) + ".go"] are
    pairwise distinct, any two visiting orders produce the same output
    files, and the emitted records are the same up to order. *)
Theorem emission_files_order_independent (o1 o2 : list (string * Struct))
    (files : gmap string string)
    (Hp : o1 ≡ₚ o2)
    (Hnd : NoDup (map (fun ns => goFileName (fst ns)) o1))
    (Hex : forall n s, In (n, s) o1 -> execute n s <> None)
    (Hw : forall p, write_ok p = true) :
  fst (fst (generate_structs execute write_ok o1 files))
  = fst (fst (generate_structs execute write_ok o2 files)) /\
  snd (fst (generate_structs execute write_ok o1 files))
  ≡ₚ snd (fst (generate_structs execute write_ok o2 files)) /\
  snd (generate_structs execute write_ok o1 files) = None /\
  snd (generate_structs execute write_ok o2 files) = None.
Proof.
  assert (Hex2 : forall n s, In (n, s) o2 -> execute n s <> None).
  { intros n s Hin. apply Hex. apply (Permutation_in _ (Permutation_sym Hp) Hin). }
  rewrite (generate_structs_all_ok o1 files Hex Hw).
  rewrite (generate_structs_all_ok o2 files Hex2 Hw).
  simpl. split; [|split; [|split; reflexivity]].
  - apply fold_write_record_perm; assumption.
  - apply Permutation_map. exact Hp.
Qed.

End Loop.

(** A template that fails for the record named "A" only. *)
Definition execute_fail_A (n : string) (_ : Struct) : option string :=
  if String.eqb n "A" then None else Some "package simplebmp".

Definition execute_all (_ : string) (_ : Struct) : option string :=
  Some "package simplebmp".

(** C4, as stated: a record whose template succeeds is emitted even if
    another record of the descriptor fails.  This fails: when "A" is
    visited first and its template fails, the valid record "B" is not
    emitted. *)
Lemma per_record_isolation_counterexample :
  ~ (forall (execute : string -> Struct -> option string)
            (write_ok : string -> bool) (order : list (string * Struct))
            (files : gmap string string) (n : string) (s : Struct),
        In (n, s) order -> execute n s <> None ->
        (forall p, write_ok p = true) ->
        In n (snd (fst (generate_structs execute write_ok order files)))).
Proof.
  intros H.
  specialize (H execute_fail_A (fun _ => true)
                [("A", mkStruct []); ("B", mkStruct [])] ∅ "B" (mkStruct [])
                ltac:(right; left; reflexivity) ltac:(discriminate)
                ltac:(reflexivity)).
  simpl in H. exact H.
Qed.

(** C8, as stated: the records are emitted in one fixed (alphabetical)
    order whatever order [range] visits the map in.  This fails: the
    two visiting orders of a two-record map emit the records in two
    different orders. *)
Lemma emission_order_counterexample :
  ~ (forall (execute : string -> Struct -> option string)
            (write_ok : string -> bool) (o1 o2 : list (string * Struct))
            (files : gmap string string),
        o1 ≡ₚ o2 -> NoDup (map fst o1) ->
        snd (fst (generate_structs execute write_ok o1 files))
        = snd (fst (generate_structs execute write_ok o2 files))).
Proof.
  intros H.
  specialize (H execute_all (fun _ => true)
                [("FileHeader", mkStruct []); ("InfoHeader", mkStruct [])]
                [("InfoHeader", mkStruct []); ("FileHeader", mkStruct [])] ∅
                ltac:(apply perm_swap)
                ltac:(apply NoDup_ListNoDup; repeat constructor; simpl; intuition discriminate)).
  vm_compute in H. discriminate H.
Qed.

Lemma emission_files_order_independent_witness :
  fst (fst (generate_structs execute_all (fun _ => true)
              [("FileHeader", mkStruct []); ("InfoHeader", mkStruct [])] ∅))
  = fst (fst (generate_structs execute_all (fun _ => true)
              [("InfoHeader", mkStruct []); ("FileHeader", mkStruct [])] ∅)).
Proof.
  apply (emission_files_order_independent execute_all (fun _ => true)
           [("FileHeader", mkStruct []); ("InfoHeader", mkStruct [])]
           [("InfoHeader", mkStruct []); ("FileHeader", mkStruct [])] ∅).
  - apply perm_swap.
  - apply NoDup_ListNoDup. repeat constructor; simpl; intuition discriminate.
  - intros n s _. discriminate.
  - reflexivity.
Defined.

End GenerateProps.

(* ------------------------------------------------------------------ *)
(** ** [runGeneration]: failure of one record *)

Module RunGenProps.
Import Config Generate RunGen GenerateProps.
Local Open Scope list_scope.

Section Run.
Variable reformed_ok : FormatConfig -> bool.
Variable mkdir_ok : FormatConfig -> bool.
Variable load : FormatConfig -> option (list (string * Struct)).
Variable execute : FormatConfig -> string -> Struct -> option string.
Variable write_ok : FormatConfig -> string -> bool.
Variable files0 : FormatConfig -> gmap string string.
Variable answer_yes : string -> bool.

Lemma run_generation_app (cs1 cs2 : list FormatConfig) (input : list string) :
  run_generation reformed_ok mkdir_ok load execute write_ok files0 answer_yes
    (cs1 ++ cs2) input
  = let '(o1, in1) :=
      run_generation reformed_ok mkdir_ok load execute write_ok files0 answer_yes cs1 input in
    let '(o2, in2) :=
      run_generation reformed_ok mkdir_ok load execute write_ok files0 answer_yes cs2 in1 in
    (o1 ++ o2, in2).
Proof.
  revert input. induction cs1 as [|c cs1 IH]; intros input; simpl.
  - destruct (run_generation _ _ _ _ _ _ _ cs2 input) as [o2 in2]. reflexivity.
  - destruct (negb (reformed_ok c) || negb (mkdir_ok c)).
    + rewrite IH. destruct (run_generation _ _ _ _ _ _ _ cs1 input) as [o1 in1].
      destruct (run_generation _ _ _ _ _ _ _ cs2 in1) as [o2 in2]. reflexivity.
    + destruct (GenerateCode load execute write_ok files0 c) as [[f em] [e|]].
      * rewrite IH. destruct (run_generation _ _ _ _ _ _ _ cs1 input) as [o1 in1].
        destruct (run_generation _ _ _ _ _ _ _ cs2 in1) as [o2 in2]. reflexivity.
      * destruct (read_line input) as [resp input1].
        rewrite IH. destruct (run_generation _ _ _ _ _ _ _ cs1 input1) as [o1 in1].
        destruct (run_generation _ _ _ _ _ _ _ cs2 in1) as [o2 in2]. reflexivity.
Qed.

(** C4, amended: when the template execution or the file write fails
    for one record of a descriptor, [GenerateCode] returns that error at
    once: the files and written records are exactly those of the
    records visited before it, and no record visited after it is
    generated, valid or not.  [runGeneration] records the failure and
    goes on with the next descriptor, from the same standard input, as
    if the failing descriptor were not there. *)
Theorem record_failure_aborts_descriptor (c : FormatConfig)
    (pre post : list (string * Struct)) (n : string) (s : Struct) (err : GenErr)
    (Hr : reformed_ok c = true) (Hm : mkdir_ok c = true)
    (Hload : load c = Some (pre ++ (n, s) :: post))
    (Hpre : snd (generate_structs (execute c) (write_ok c) pre (files0 c)) = None)
    (Hfail : (execute c n s = None /\ err = ErrTemplate n) \/
             (exists out, execute c n s = Some out /\
                          write_ok c (goFileName n) = false /\
                          err = ErrWriteFile (goFileName n))) :
  let '(files, emitted, _) := generate_structs (execute c) (write_ok c) pre (files0 c) in
  GenerateCode load execute write_ok files0 c = (files, emitted, Some (ErrGen err)) /\
  forall (cs1 cs2 : list FormatConfig) (input : list string),
    run_generation reformed_ok mkdir_ok load execute write_ok files0 answer_yes
      (cs1 ++ c :: cs2) input
    = let '(o1, in1) :=
      run_generation reformed_ok mkdir_ok load execute write_ok files0 answer_yes cs1 input in
      let '(o2, in2) :=
      run_generation reformed_ok mkdir_ok load execute write_ok files0 answer_yes cs2 in1 in
      (o1 ++ (fc_Name c, OFailed files emitted (ErrGen err)) :: o2, in2).
Proof.
  assert (Hgen : let '(files, emitted, _) :=
                   generate_structs (execute c) (write_ok c) pre (files0 c) in
                 GenerateCode load execute write_ok files0 c
                 = (files, emitted, Some (ErrGen err))).
  { unfold GenerateCode. rewrite Hload, generate_structs_app.
    destruct (generate_structs (execute c) (write_ok c) pre (files0 c))
      as [[f em] e].
    simpl in Hpre. subst e. simpl.
    destruct Hfail as [[He ->]|(out & He & Hw & ->)]; rewrite He.
    - rewrite app_nil_r. reflexivity.
    - rewrite Hw, app_nil_r. reflexivity. }
  destruct (generate_structs (execute c) (write_ok c) pre (files0 c))
    as [[f em] e].
  split; [exact Hgen|].
  intros cs1 cs2 input.
  rewrite run_generation_app. destruct (run_generation _ _ _ _ _ _ _ cs1 input) as [o1 in1].
  simpl. rewrite Hr, Hm, Hgen. simpl.
  destruct (run_generation _ _ _ _ _ _ _ cs2 in1) as [o2 in2]. reflexivity.
Qed.

End Run.

(** A descriptor whose record "A" cannot be generated. *)
Definition bmp_config : FormatConfig := mkFormatConfig "BMP" "sources/bmp.yml" "formats/bmp" "bmp".
Definition png_config : FormatConfig := mkFormatConfig "PNG" "sources/png.yml" "formats/png" "png".

Definition load_ex (c : FormatConfig) : option (list (string * Struct)) :=
  if String.eqb (fc_Name c) "BMP"
  then Some [("FileHeader", mkStruct []); ("A", mkStruct []); ("ImageData", mkStruct [])]
  else Some [("Chunk", mkStruct [])].

Definition execute_ex (_ : FormatConfig) (n : string) (_ : Struct) : option string :=
  if String.eqb n "A" then None else Some "package generated".

Lemma record_failure_aborts_descriptor_witness :
  run_generation (fun _ => true) (fun _ => true) load_ex execute_ex (fun _ _ => true)
    (fun _ => ∅) (fun r => String.eqb r "y") [bmp_config; png_config] ["y"]
  = ([("BMP", OFailed (<["FileHeader.go" := "package generated"]> ∅) ["FileHeader"]
                 (ErrGen (ErrTemplate "A")));
      ("PNG", OGenerated (<["Chunk.go" := "package generated"]> ∅) ["Chunk"] true)], []).
Proof.
  pose proof (record_failure_aborts_descriptor (fun _ => true) (fun _ => true) load_ex
                execute_ex (fun _ _ => true) (fun _ => ∅) (fun r => String.eqb r "y")
                bmp_config [("FileHeader", mkStruct [])] [("ImageData", mkStruct [])]
                "A" (mkStruct []) (ErrTemplate "A") eq_refl eq_refl eq_refl eq_refl
                (or_introl (conj eq_refl eq_refl))) as H.
  simpl in H. destruct H as [_ H].
  change [bmp_config; png_config] with ([] ++ bmp_config :: [png_config]).
  rewrite (H [] [png_config] ["y"]). reflexivity.
Defined.

End RunGenProps.

(* ------------------------------------------------------------------ *)
(** ** Key normalisation *)

Module KeyNormProps.
Import KeyNorm.
Local Open Scope list_scope.

(** Induction over value trees, through the nested lists. *)
Fixpoint gval_ind2 (P : gval -> Prop)
    (HNil : P GNil) (HStr : forall s, P (GStr s)) (HInt : forall z, P (GInt z))
    (HBool : forall b, P (GBool b))
    (HSMap : forall kvs : list (string * gval),
               Forall (fun kv => P (snd kv)) kvs -> P (GSMap kvs))
    (HIMap : forall kvs : list (gkey * gval),
               Forall (fun kv => P (snd kv)) kvs -> P (GIMap kvs))
    (HList : forall vs, Forall P vs -> P (GList vs))
    (v : gval) {struct v} : P v :=
  match v with
  | GNil => HNil
  | GStr s => HStr s
  | GInt z => HInt z
  | GBool b => HBool b
  | GSMap kvs =>
      HSMap kvs
        ((fix go (l : list (string * gval)) : Forall (fun kv => P (snd kv)) l :=
            match l with
            | [] => @List.Forall_nil _ (fun kv => P (snd kv))
            | (k, x) :: rest =>
                @List.Forall_cons _ (fun kv => P (snd kv)) (k, x) rest
                  (gval_ind2 P HNil HStr HInt HBool HSMap HIMap HList x) (go rest)
            end) kvs)
  | GIMap kvs =>
      HIMap kvs
        ((fix go (l : list (gkey * gval)) : Forall (fun kv => P (snd kv)) l :=
            match l with
            | [] => @List.Forall_nil _ (fun kv => P (snd kv))
            | (k, x) :: rest =>
                @List.Forall_cons _ (fun kv => P (snd kv)) (k, x) rest
                  (gval_ind2 P HNil HStr HInt HBool HSMap HIMap HList x) (go rest)
            end) kvs)
  | GList vs =>
      HList vs
        ((fix go (l : list gval) : Forall P l :=
            match l with
            | [] => @List.Forall_nil _ P
            | x :: rest =>
                @List.Forall_cons _ P x rest
                  (gval_ind2 P HNil HStr HInt HBool HSMap HIMap HList x) (go rest)
            end) vs)
  end.

(** The loop that fills [newMap], for either kind of key. *)
Definition fill_newMap {K : Type} (keyf : K -> string) (f : gval -> gval)
  : list (string * gval) -> list (K * gval) -> list (string * gval) :=
  fix go newMap l :=
    match l with
    | [] => newMap
    | (key, val) :: rest => go (map_set newMap (keyf key) (f val)) rest
    end.

Lemma lowercase_GSMap (ToLower : string -> string) (kvs : list (string * gval)) :
  lowercaseFieldKeysRecursive ToLower (GSMap kvs)
  = GSMap (fill_newMap (string_key ToLower) (lowercaseFieldKeysRecursive ToLower) [] kvs).
Proof. reflexivity. Qed.

Lemma lowercase_GIMap (ToLower : string -> string) (kvs : list (gkey * gval)) :
  lowercaseFieldKeysRecursive ToLower (GIMap kvs)
  = GSMap (fill_newMap print_key (lowercaseFieldKeysRecursive ToLower) [] kvs).
Proof. reflexivity. Qed.

Lemma lowercase_GList (ToLower : string -> string) (vs : list gval) :
  lowercaseFieldKeysRecursive ToLower (GList vs)
  = GList (map (lowercaseFieldKeysRecursive ToLower) vs).
Proof.
  simpl; f_equal;
  try (induction vs as [|v vs IH]; simpl; [|rewrite IH]; reflexivity).
Qed.

Lemma map_set_fresh (m : list (string * gval)) (k : string) (v : gval) :
  ~ In k (map fst m) -> map_set m k v = m ++ [(k, v)].
Proof.
  induction m as [|[k' v'] m IH]; simpl; intros Hn; [reflexivity|].
  destruct (String.eqb_spec k k') as [->|Hne].
  - exfalso. apply Hn. left. reflexivity.
  - rewrite IH by tauto. reflexivity.
Qed.

Lemma fill_newMap_fresh {K : Type} (keyf : K -> string) (f : gval -> gval)
    (acc : list (string * gval)) (l : list (K * gval)) :
  List.NoDup (map (fun kv => keyf (fst kv)) l) ->
  (forall k, In k (map fst acc) -> ~ In k (map (fun kv => keyf (fst kv)) l)) ->
  fill_newMap keyf f acc l = acc ++ map (fun kv => (keyf (fst kv), f (snd kv))) l.
Proof.
  revert acc.
  induction l as [|[key val] l IH]; intros acc Hnd Hdis; simpl.
  - rewrite app_nil_r. reflexivity.
  - simpl in Hnd. inversion Hnd as [|? ? Hnin Hnd']; subst.
    rewrite map_set_fresh.
    + rewrite IH.
      * rewrite <- app_assoc. reflexivity.
      * exact Hnd'.
      * intros k Hk. rewrite map_app, in_app_iff in Hk. simpl in Hk.
        destruct Hk as [Hk|[<-|[]]].
        -- intros Hin. apply (Hdis k Hk). right. exact Hin.
        -- exact Hnin.
    + intros Hin. apply (Hdis _ Hin). left. reflexivity.
Qed.

(** C6: the keys of the mappings nested in a descriptor are never
    lowercased.  [yaml.v2] decodes every mapping below the top level
    into a [map[interface{}]interface{}]; its keys have [Kind]
    [reflect.Interface], not [reflect.String], so they take the [%v]
    branch and keep their casing, whatever [strings.ToLower] returns.
    Here the field attribute keys "Name", "Type" and "Length" of a
    record's field come out unchanged; only the key of the top-level
    [map[string]interface{}] goes through the known-key test. *)
Theorem lowercase_keys_nested_unchanged (ToLower : string -> string) :
  lowercaseFieldKeysRecursive ToLower
    (GSMap [("structs",
             GIMap [(KStr "Header",
                     GIMap [(KStr "fields",
                             GList [GIMap [(KStr "Name", GStr "Signature");
                                           (KStr "Type", GStr "string");
                                           (KStr "Length", GInt 2)]])])])])
  = GSMap [(string_key ToLower "structs",
            GSMap [("Header",
                    GSMap [("fields",
                            GList [GSMap [("Name", GStr "Signature");
                                          ("Type", GStr "string");
                                          ("Length", GInt 2)]])])])].
Proof. reflexivity. Qed.

End KeyNormProps.

(* ------------------------------------------------------------------ *)
(** ** The generated codecs: streams and short input *)

Module CodecMoreProps.
Import Codec CodecProps.
Local Open Scope Z_scope.
Local Open Scope list_scope.

(** [Header.Read] on any reader: with [k] the number of bytes returned
    by its first [Read] call (at most 2, taken from the reader's first
    piece), it fails exactly when the reader holds fewer than [k + 12]
    bytes; otherwise the [Signature] is those [k] bytes padded with zero
    bytes to 2, the three fields are the next 12 bytes, little-endian,
    and the bytes after them are left unread. *)
Theorem Header_Read_spec (s : Header) (r : Reader) :
  let k := List.length (first_piece r) in
  let rest := drop k (List.concat (r_chunks r)) in
  (snd (Header_Read s r) <> None <-> (List.length (List.concat (r_chunks r)) < k + 12)%nat) /\
  ((k + 12 <= List.length (List.concat (r_chunks r)))%nat ->
   exists r', Header_Read s r
     = (mkHeader (first_piece r ++ replicate (2 - k) 0) (le_uint32 (take 4 rest))
          (le_uint32 (take 4 (drop 4 rest))) (le_uint32 (take 4 (drop 8 rest))), r', None)
     /\ List.concat (r_chunks r') = drop 12 rest).
Proof.
  cbv zeta.
  destruct (r_chunks r) as [|c cs] eqn:Hr.
  - unfold first_piece. rewrite Hr. simpl.
    unfold Header_Read, io_Read. rewrite Hr. simpl.
    split; [split; [intros _; lia | intros _ H; discriminate H] | intros H; lia].
  - destruct (io_Read_2 r c cs Hr) as (r1 & Hio & Hc1 & _).
    rewrite Hr in Hc1.
    assert (Hk : (List.length (first_piece r) <= List.length (List.concat (c :: cs)))%nat).
    { unfold first_piece. rewrite Hr. simpl. rewrite length_take, length_app. lia. }
    unfold Header_Read. rewrite Hio.
    destruct (Nat.lt_ge_cases (List.length (List.concat (r_chunks r1))) 4) as [H1|H1].
    { destruct (binary_Read_uint32_io_short r1 H1) as (e & r2 & ->).
      rewrite Hc1, length_drop in H1. cbn [snd].
      split; [split; [intros _; lia | intros _ H; discriminate H] | intros H; lia]. }
    destruct (binary_Read_uint32_io_ok r1 H1) as (r2 & -> & Hc2 & _).
    destruct (Nat.lt_ge_cases (List.length (List.concat (r_chunks r2))) 4) as [H2|H2].
    { destruct (binary_Read_uint32_io_short r2 H2) as (e & r3 & ->).
      rewrite Hc2, Hc1, !length_drop in H2. cbn [snd].
      split; [split; [intros _; lia | intros _ H; discriminate H] | intros H; lia]. }
    destruct (binary_Read_uint32_io_ok r2 H2) as (r3 & -> & Hc3 & _).
    destruct (Nat.lt_ge_cases (List.length (List.concat (r_chunks r3))) 4) as [H3|H3].
    { destruct (binary_Read_uint32_io_short r3 H3) as (e & r4 & ->).
      rewrite Hc3, Hc2, Hc1, !length_drop in H3. cbn [snd].
      split; [split; [intros _; lia | intros _ H; discriminate H] | intros H; lia]. }
    destruct (binary_Read_uint32_io_ok r3 H3) as (r4 & -> & Hc4 & _).
    rewrite Hc3, Hc2, Hc1, !length_drop in H3.
    cbn [snd Signature FileSize Reserved DataOffset].
    split; [split; [intros H; exfalso; apply H; reflexivity | intros H; lia] |].
    intros _. exists r4. split.
    + rewrite Hc3, Hc2, Hc1, !drop_drop, <- ?Nat.add_assoc. reflexivity.
    + rewrite Hc4, Hc3, Hc2, Hc1, !drop_drop, <- ?Nat.add_assoc. reflexivity.
Qed.

(** [Header.Read] after [Header.Write] to a [bytes.Buffer], from any
    receiver, with any bytes following the record and any reader whose
    first [Read] call returns 2 bytes: the header is restored and
    exactly its 14 bytes are consumed. *)
Theorem Header_Write_Read_prefix (s h : Header) (r : Reader) (rest : bytes)
    (Hsig : List.length (Signature h) = 2%nat)
    (Hfs : is_uint32 (FileSize h)) (Hrs : is_uint32 (Reserved h))
    (Hdo : is_uint32 (DataOffset h))
    (Hr : List.concat (r_chunks r) = fst (Header_Write h WBuffer) ++ rest)
    (Hfirst : List.length (first_piece r) = 2%nat) :
  exists r', Header_Read s r = (h, r', None) /\ List.concat (r_chunks r') = rest.
Proof.
  rewrite CodecProps.Header_Write_buffer in Hr. cbn [fst] in Hr.
  rewrite <- !app_assoc in Hr.
  destruct (Header_Read_spec s r) as [_ Hok].
  rewrite Hfirst in Hok. cbv zeta in Hok.
  assert (Hlen : List.length (List.concat (r_chunks r))
                 = (List.length (Signature h) + 12 + List.length rest)%nat).
  { rewrite Hr, !length_app. unfold put_uint32. simpl. lia. }
  destruct (Hok ltac:(lia)) as (r' & Hh & Hc).
  assert (Hp : first_piece r = Signature h).
  { assert (Hpre : forall c cs, r_chunks r = c :: cs -> first_piece r = take 2 c)
      by (intros c cs Hc'; unfold first_piece; rewrite Hc'; reflexivity).
    destruct (r_chunks r) as [|c cs] eqn:Hrc.
    - unfold first_piece in Hfirst. rewrite Hrc in Hfirst. discriminate.
    - rewrite (Hpre c cs eq_refl). cbn [List.concat] in Hr.
      assert (Htc : take 2 (c ++ List.concat cs) = take 2 c).
      { apply take_app_le. unfold first_piece in Hfirst. rewrite Hrc, length_take in Hfirst.
        lia. }
      rewrite <- Htc, Hr, take_app_le by lia. apply take_ge. lia. }
  rewrite Hp, Hr in Hh. rewrite Hr in Hc.
  rewrite !(drop_app_length' (Signature h)) in Hh, Hc by lia.
  exists r'. split; [|rewrite Hc; reflexivity].
  rewrite Hh. destruct h as [sig fs rs dofs]. cbn [Signature FileSize Reserved DataOffset] in *.
  change (2 - 2)%nat with 0%nat. cbn [replicate]. rewrite app_nil_r.
  assert (Ht : forall v X, take 4 (put_uint32 v ++ X) = put_uint32 v)
    by (intros; reflexivity).
  assert (Hd4 : forall v X, drop 4 (put_uint32 v ++ X) = X) by (intros; reflexivity).
  assert (Hd8 : forall v w X, drop 8 (put_uint32 v ++ put_uint32 w ++ X) = X)
    by (intros; reflexivity).
  rewrite Hd8, Hd4, !Ht, !le_uint32_put_uint32 by assumption. reflexivity.
Qed.

Lemma Header_Write_Read_prefix_witness :
  exists r', Header_Read Header_zero
               (mkReader [[66; 77; 70; 0]; [0; 0; 0; 0; 0; 0; 54; 0; 0; 0; 255]] EOF)
             = (mkHeader [66; 77] 70 0 54, r', None) /\ List.concat (r_chunks r') = [255].
Proof.
  apply (Header_Write_Read_prefix Header_zero (mkHeader [66; 77] 70 0 54)
           (mkReader [[66; 77; 70; 0]; [0; 0; 0; 0; 0; 0; 54; 0; 0; 0; 255]] EOF) [255]).
  - reflexivity.
  - unfold is_uint32; simpl; lia.
  - unfold is_uint32; simpl; lia.
  - unfold is_uint32; simpl; lia.
  - vm_compute. reflexivity.
  - reflexivity.
Defined.

(** [ImageData.Read] after [ImageData.Write], from any receiver and with
    any bytes following: [Width] and [Height] are restored, exactly 8
    bytes are consumed and the receiver's [PixelData] is left as it was. *)
Theorem ImageData_Write_Read_dims (s d : ImageData) (rest : bytes) :
  is_uint32 (Width d) -> is_uint32 (Height d) ->
  ImageData_Read s (fst (ImageData_Write d) ++ rest)
  = (mkImageData (Width d) (Height d) (PixelData s), rest, None).
Proof.
  intros Hw Hh. unfold ImageData_Write, fst. rewrite <- app_assoc.
  unfold ImageData_Read.
  rewrite !CodecProps.binary_Read_put_uint32 by assumption.
  reflexivity.
Qed.

Lemma ImageData_Write_Read_dims_witness :
  ImageData_Read (mkImageData 0 0 [7]) ([2; 0; 0; 0; 3; 0; 0; 0] ++ [9])
  = (mkImageData 2 3 [7], [9], None).
Proof.
  exact (ImageData_Write_Read_dims (mkImageData 0 0 [7]) (mkImageData 2 3 [1; 2]) [9]
           ltac:(unfold is_uint32; simpl; lia) ltac:(unfold is_uint32; simpl; lia)).
Defined.

(** [ImageData.Read] returns an error exactly when fewer than 8 bytes
    are available. *)
Theorem ImageData_Read_error_iff_short (s : ImageData) (r : bytes) :
  snd (ImageData_Read s r) <> None <-> (List.length r < 8)%nat.
Proof.
  do 8 (destruct r as [|? r];
        [simpl; split; [intros _; lia | intros _; discriminate] |]).
  simpl. split; [intros H; exfalso; apply H; reflexivity | lia].
Qed.

End CodecMoreProps.

(* ------------------------------------------------------------------ *)
(** ** [CalculatePaddedSize]: argument checks and alignment *)

Module PaddedMoreProps.
Import Padded.
Local Open Scope Z_scope.

Lemma quot8_nonpos_iff (b : Z) : Z.quot b 8 <= 0 <-> b < 8.
Proof.
  destruct (Z_lt_le_dec b 0) as [Hn|Hp].
  - rewrite <- (Z.opp_involutive b), Z.quot_opp_l by lia.
    pose proof (Z.quot_pos (- b) 8 ltac:(lia) ltac:(lia)). lia.
  - rewrite Z.quot_div_nonneg by lia.
    split; intros H.
    + destruct (Z_lt_le_dec b 8) as [|H8]; [lia|].
      pose proof (Z.div_le_mono 8 b 8 ltac:(lia) H8) as Hd.
      rewrite Z.div_same in Hd by lia. lia.
    + pose proof (Z.div_lt_upper_bound b 8 1 ltac:(lia) ltac:(lia)).
      pose proof (Z.div_pos b 8 ltac:(lia) ltac:(lia)). lia.
Qed.

(** The argument checks of [CalculatePaddedSize]: zero bits per pixel
    is rejected as such, any other value below 8 (negative ones
    included) as unsupported, and every value from 8 up yields a size. *)
Theorem CalculatePaddedSize_errors (width height bitsPerPixel : Z) :
  (CalculatePaddedSize width height bitsPerPixel = inr ErrZeroBits
   <-> bitsPerPixel = 0) /\
  (CalculatePaddedSize width height bitsPerPixel = inr ErrUnsupportedBits
   <-> bitsPerPixel <> 0 /\ bitsPerPixel < 8) /\
  ((exists v, CalculatePaddedSize width height bitsPerPixel = inl v)
   <-> 8 <= bitsPerPixel).
Proof.
  unfold CalculatePaddedSize.
  pose proof (quot8_nonpos_iff bitsPerPixel) as Hq.
  destruct (Z.eqb_spec bitsPerPixel 0) as [->|H0].
  - split; [split; auto|]. split; split; try discriminate; try lia.
    intros [v Hv]; discriminate.
  - destruct (Z.leb_spec (Z.quot bitsPerPixel 8) 0) as [Hle|Hgt].
    + split; [split; [discriminate | lia]|].
      split; [split; [intros _; lia | auto]|].
      split; [intros [v Hv]; discriminate | lia].
    + split; [split; [discriminate | lia]|].
      split; [split; [discriminate | lia]|].
      split; [intros _; lia | eauto].
Qed.

Lemma wrap64_mod4 (z : Z) : (4 | wrap64 z) <-> (4 | z).
Proof.
  unfold wrap64.
  rewrite (Z.mod_eq (z + 2 ^ 63) (2 ^ 64)) by lia.
  replace (z + 2 ^ 63 - 2 ^ 64 * ((z + 2 ^ 63) / 2 ^ 64) - 2 ^ 63)
    with (z + 4 * (- (2 ^ 62 * ((z + 2 ^ 63) / 2 ^ 64)))) by (simpl; lia).
  split; intros H.
  - apply (Z.divide_add_cancel_r 4 (4 * (- (2 ^ 62 * ((z + 2 ^ 63) / 2 ^ 64)))) z).
    + apply Z.divide_factor_l.
    + rewrite Z.add_comm. exact H.
  - apply Z.divide_add_r; [exact H | apply Z.divide_factor_l].
Qed.

Lemma float64_of_int_mod4 (z : Z) : (4 | z) -> (4 | float64_of_int z).
Proof.
  intros Hz. unfold float64_of_int.
  destruct (Z.leb_spec (Z.abs z) (2 ^ 53)) as [|Hbig]; [exact Hz|].
  cbv zeta.
  assert (Hlog : 53 <= Z.log2 (Z.abs z)).
  { rewrite <- (Z.log2_pow2 53) by lia. apply Z.log2_le_mono. lia. }
  set (e := Z.log2 (Z.abs z) - 52).
  assert (He : 1 <= e) by (unfold e; lia).
  destruct (Z.eq_dec e 1) as [He1|He2].
  - rewrite He1. change (2 ^ 1) with 2. change (2 ^ (1 - 1)) with 1.
    assert (Ha : (2 | Z.abs z)).
    { apply Z.divide_abs_r. destruct Hz as [k ->]. exists (2 * k). lia. }
    assert (Hr : Z.abs z mod 2 = 0) by (apply Z.mod_divide; [lia | exact Ha]).
    rewrite Hr. simpl.
    rewrite (Z.mul_comm (Z.abs z / 2) 2), <- (Z_div_exact_full_2 (Z.abs z) 2)
      by (lia || exact Hr).
    rewrite Z.mul_comm, Z.abs_sgn. exact Hz.
  - apply Z.divide_mul_r. apply Z.divide_mul_r.
    replace e with (2 + (e - 2)) by lia.
    rewrite Z.pow_add_r by lia. apply Z.divide_mul_l.
    exists 1. reflexivity.
Qed.

(** Every size [CalculatePaddedSize] returns is a multiple of 4, for all
    arguments: also when the 64-bit [int] arithmetic wraps around, when
    an argument is negative, or when the conversion to [float64] rounds. *)
Theorem CalculatePaddedSize_multiple_of_4 (width height bitsPerPixel v : Z) :
  CalculatePaddedSize width height bitsPerPixel = inl v -> v mod 4 = 0.
Proof.
  unfold CalculatePaddedSize.
  destruct (bitsPerPixel =? 0); [discriminate|].
  destruct (Z.quot bitsPerPixel 8 <=? 0); [discriminate|].
  intros H. injection H as <-.
  apply Z.mod_divide; [lia|].
  apply float64_of_int_mod4. apply wrap64_mod4.
  apply Z.divide_mul_r. apply wrap64_mod4.
  set (bpr := wrap64 (width * Z.quot bitsPerPixel 8)).
  rewrite (Z.rem_eq (4 - Z.rem bpr 4) 4) by lia.
  rewrite (Z.rem_eq bpr 4) by lia.
  exists (1 + Z.quot bpr 4 - Z.quot (4 - (bpr - 4 * Z.quot bpr 4)) 4). lia.
Qed.

Lemma CalculatePaddedSize_multiple_of_4_witness :
  CalculatePaddedSize 3 5 24 = inl 60 /\ 60 mod 4 = 0.
Proof.
  split; [reflexivity|].
  exact (CalculatePaddedSize_multiple_of_4 3 5 24 60 eq_refl).
Defined.

End PaddedMoreProps.

(* ------------------------------------------------------------------ *)
(** ** The template data of [GenerateCode] *)

Module AnalysisProps.
Import Analysis.
Local Open Scope list_scope.

Definition uses_err_read (f : Field) : bool :=
  is_numeric_type (f_Type f)
  || (String.eqb (f_Type f) "string" && negb (String.eqb (f_Length f) "")
      && fixed_nonzero_length (f_Length f))
  || (String.eqb (f_Type f) "[]byte" && negb (String.eqb (f_Length f) "")).

Lemma field_step_flags (st : Needs) (f : Field) :
  needsBinary (field_step st f) = needsBinary st || is_numeric_type (f_Type f) /\
  needsFmt (field_step st f) = true /\
  needsBVar (field_step st f) = needsBVar st || String.eqb (f_Type f) "string" /\
  needsErrVarWrite (field_step st f)
  = needsErrVarWrite st || (is_numeric_type (f_Type f) || String.eqb (f_Type f) "[]byte") /\
  needsErrVarRead (field_step st f) = needsErrVarRead st || uses_err_read f.
Proof.
  unfold field_step, uses_err_read.
  destruct (String.eqb_spec (f_Type f) "string") as [Hs|Hs].
  { rewrite Hs.
    assert (E1 : is_numeric_type "string" = false) by reflexivity.
    assert (E2 : String.eqb "string" "string" = true) by reflexivity.
    assert (E3 : String.eqb "string" "[]byte" = false) by reflexivity.
    rewrite ?E1, ?E2, ?E3. simpl. repeat split; btauto. }
  destruct (String.eqb_spec (f_Type f) "[]byte") as [Hb|Hb].
  { rewrite Hb.
    assert (E1 : is_numeric_type "[]byte" = false) by reflexivity.
    assert (E2 : String.eqb "[]byte" "string" = false) by reflexivity.
    assert (E3 : String.eqb "[]byte" "[]byte" = true) by reflexivity.
    rewrite ?E1, ?E2, ?E3. simpl. repeat split; btauto. }
  apply String.eqb_neq in Hs, Hb. rewrite ?Hs, ?Hb.
  destruct (is_numeric_type (f_Type f)); simpl; repeat split; btauto.
Qed.

Lemma analyse_fold (fs : list Field) (st : Needs) :
  needsBinary (fold_left field_step fs st)
  = needsBinary st || existsb (fun f => is_numeric_type (f_Type f)) fs /\
  needsFmt (fold_left field_step fs st)
  = needsFmt st || negb (Nat.eqb (List.length fs) 0) /\
  needsBVar (fold_left field_step fs st)
  = needsBVar st || existsb (fun f => String.eqb (f_Type f) "string") fs /\
  needsErrVarWrite (fold_left field_step fs st)
  = needsErrVarWrite st
    || existsb (fun f => is_numeric_type (f_Type f)
                         || String.eqb (f_Type f) "[]byte") fs /\
  needsErrVarRead (fold_left field_step fs st)
  = needsErrVarRead st || existsb uses_err_read fs.
Proof.
  revert st. induction fs as [|f fs IH]; intros st; simpl.
  - rewrite !orb_false_r. repeat split.
  - destruct (IH (field_step st f)) as (H1 & H2 & H3 & H4 & H5).
    destruct (field_step_flags st f) as (F1 & F2 & F3 & F4 & F5).
    rewrite H1, H2, H3, H4, H5, F1, F2, F3, F4, F5.
    repeat split; btauto.
Qed.

(** The imports of a generated file: "io" always, "fmt" exactly when
    the struct has fields, "encoding/binary" exactly when a field has a
    numeric type; sorted, so the list does not depend on the iteration
    order of the [requiredImports] map. *)
Theorem template_imports (packageName structName : string) (structDef : Struct) :
  td_Imports (template_data packageName structName structDef)
  = (if existsb (fun f => is_numeric_type (f_Type f)) (s_Fields structDef)
     then ["encoding/binary"] else [])
    ++ (if Nat.eqb (List.length (s_Fields structDef)) 0 then [] else ["fmt"])
    ++ ["io"].
Proof.
  unfold template_data, importsList, requiredImports, analyse_fields. cbn [td_Imports].
  destruct (analyse_fold (s_Fields structDef) (mkNeeds ∅ false false false false false))
    as (H1 & H2 & _).
  rewrite H1, H2. cbn [needsBinary needsFmt orb].
  destruct (existsb _ _), (Nat.eqb _ 0); vm_compute; reflexivity.
Qed.

(** The flags passed to the template: [NeedsBVar] exactly when a field
    has type "string"; [NeedsErrVarWrite] exactly when a field is numeric
    or "[]byte"; [NeedsErrVarRead] exactly when a field is numeric, a
    "string" whose length [strconv.Atoi] accepts and is not the text "0"
    (so "00", "+0" and "-0" count), or a "[]byte" with a length. *)
Theorem template_flags (packageName structName : string) (structDef : Struct) :
  td_NeedsBVar (template_data packageName structName structDef)
  = existsb (fun f => String.eqb (f_Type f) "string") (s_Fields structDef) /\
  td_NeedsErrVarWrite (template_data packageName structName structDef)
  = existsb (fun f => is_numeric_type (f_Type f) || String.eqb (f_Type f) "[]byte")
      (s_Fields structDef) /\
  td_NeedsErrVarRead (template_data packageName structName structDef)
  = existsb (fun f =>
               is_numeric_type (f_Type f)
               || (String.eqb (f_Type f) "string"
                   && negb (String.eqb (f_Length f) "")
                   && fixed_nonzero_length (f_Length f))
               || (String.eqb (f_Type f) "[]byte"
                   && negb (String.eqb (f_Length f) "")))
      (s_Fields structDef).
Proof.
  unfold template_data, analyse_fields. cbn [td_NeedsBVar td_NeedsErrVarWrite td_NeedsErrVarRead].
  destruct (analyse_fold (s_Fields structDef) (mkNeeds ∅ false false false false false))
    as (_ & _ & H3 & H4 & H5).
  rewrite H3, H4, H5. auto.
Qed.

Lemma field_step_fieldMap (st : Needs) (f : Field) :
  fieldMap (field_step st f) = <[f_Name f := f_Type f]> (fieldMap st).
Proof.
  unfold field_step.
  destruct (is_numeric_type _); [reflexivity|].
  destruct (String.eqb _ "string"); [reflexivity|].
  destruct (String.eqb _ "[]byte"); reflexivity.
Qed.

Lemma fieldMap_fold (fs : list Field) (st : Needs) (name : string) :
  fieldMap (fold_left field_step fs st) !! name
  = match last (map f_Type (List.filter (fun f => String.eqb (f_Name f) name) fs)) with
    | Some t => Some t
    | None => fieldMap st !! name
    end.
Proof.
  revert st. induction fs as [|f fs IH]; intros st; simpl; [reflexivity|].
  rewrite IH, field_step_fieldMap.
  destruct (String.eqb_spec (f_Name f) name) as [Heq|Hne].
  - rewrite Heq, ?String.eqb_refl. cbn [map]. rewrite last_cons.
    destruct (last _); [reflexivity|].
    rewrite lookup_insert_eq. reflexivity.
  - apply String.eqb_neq in Hne as Hb.
    destruct (last _); [reflexivity|].
    rewrite lookup_insert_ne by (apply String.eqb_neq; exact Hb). reflexivity.
Qed.

(** The [FieldMap] passed to the template maps each field name to the
    type of the last field of that name. *)
Theorem template_fieldMap (packageName structName : string) (structDef : Struct)
    (name : string) :
  td_FieldMap (template_data packageName structName structDef) !! name
  = last (map f_Type (List.filter (fun f => String.eqb (f_Name f) name)
                        (s_Fields structDef))).
Proof.
  unfold template_data, analyse_fields. cbn [td_FieldMap].
  rewrite fieldMap_fold. destruct (last _); reflexivity.
Qed.

End AnalysisProps.

(* ------------------------------------------------------------------ *)
(** ** [GetDefaults] *)

Module DefaultsProps.
Import Defaults.

Section Props.
(** [strings.ToLower]. *)
Variable ToLower : string -> string.

Lemma formatDefaults_fold (formats : list formatConfig)
    (m : gmap string formatConfig) (k : string) :
  fold_left (fun m f => <[ToLower (d_Name f) := f]> m) formats m !! k
  = match last (List.filter (fun f => String.eqb (ToLower (d_Name f)) k) formats) with
    | Some f => Some f
    | None => m !! k
    end.
Proof.
  revert m. induction formats as [|f fs IH]; intros m; simpl; [reflexivity|].
  rewrite IH.
  destruct (String.eqb_spec (ToLower (d_Name f)) k) as [Heq|Hne].
  - rewrite Heq, ?String.eqb_refl. rewrite last_cons.
    destruct (last _); [reflexivity|].
    rewrite lookup_insert_eq. reflexivity.
  - apply String.eqb_neq in Hne as Hb.
    destruct (last _); [reflexivity|].
    rewrite lookup_insert_ne by (apply String.eqb_neq; exact Hb). reflexivity.
Qed.

(** [GetDefaults] after [init]: the paths of the last entry of
    "formats.json" whose name equals the requested format under
    [strings.ToLower]; when there is none, or "formats.json" is missing or not valid
    JSON, the fallback [format.yml], [lowercase format] and
    [format_stubs.go]. *)
Theorem GetDefaults_init (data : option string)
    (unmarshal : string -> option (list formatConfig)) (format : string) :
  GetDefaults ToLower (init_formatDefaults ToLower data unmarshal) format
  = let formats := match data with
                   | Some d => default [] (unmarshal d)
                   | None => []
                   end in
    match last (List.filter (fun f => String.eqb (ToLower (d_Name f)) (ToLower format))
                  formats) with
    | Some f => (d_YAMLFile f, d_OutputDir f, d_TargetStub f)
    | None => (format ++ ".yml", ToLower format, format ++ "_stubs.go")
    end.
Proof.
  unfold GetDefaults, init_formatDefaults.
  destruct data as [d|]; [|reflexivity]. simpl.
  destruct (unmarshal d) as [formats|]; simpl; [|reflexivity].
  rewrite formatDefaults_fold. destruct (last _); reflexivity.
Qed.

End Props.

End DefaultsProps.

(* ------------------------------------------------------------------ *)
(** ** [generateTestScript]: the struct under test *)

Module TestScriptProps.
Import TestScript.
Local Open Scope list_scope.

Lemma sort_Strings_unique (l1 l2 : list string) :
  l1 ≡ₚ l2 -> sort_Strings l1 = sort_Strings l2.
Proof.
  intros Hp. unfold sort_Strings.
  apply (Sorted_unique String.le);
    [apply Sorted_merge_sort; typeclasses eauto
    |apply Sorted_merge_sort; typeclasses eauto|].
  etrans; [apply merge_sort_Permutation|].
  etrans; [exact Hp|]. symmetry. apply merge_sort_Permutation.
Qed.

(** The struct the generated test exercises is the least struct name
    in byte order; the choice does not depend on the iteration order of
    the structs map. *)
Theorem test_first_struct_least (yamlData : string)
    (structKeys : string -> option (list string))
    (outputDir packageName goModulePath : string) (names : list string)
    (Hk : structKeys yamlData = Some names) (Hne : names <> []) :
  exists d,
    test_template_data (Some yamlData) structKeys outputDir packageName goModulePath
    = inl d /\
    t_FirstStructName d ∈ names /\
    (forall n, n ∈ names -> String.le (t_FirstStructName d) n) /\
    (forall structKeys' names', structKeys' yamlData = Some names' ->
       names' ≡ₚ names ->
       test_template_data (Some yamlData) structKeys' outputDir packageName goModulePath
       = inl d).
Proof.
  unfold test_template_data. rewrite Hk.
  destruct (Nat.eqb_spec (List.length names) 0) as [H0|_].
  { destruct names; [congruence | discriminate]. }
  pose proof (merge_sort_Permutation String.le names) as Hp.
  pose proof (StronglySorted_merge_sort String.le names) as Hs.
  fold (sort_Strings names) in Hp, Hs.
  destruct (sort_Strings names) as [|first rest] eqn:Hsort.
  { apply Permutation_nil in Hp. congruence. }
  eexists. split; [reflexivity|]. simpl.
  split; [|split].
  - rewrite <- Hp. left.
  - intros n Hn. rewrite <- Hp in Hn.
    apply elem_of_cons in Hn as [->|Hn]; [reflexivity|].
    apply StronglySorted_inv in Hs as [_ Hall].
    rewrite Forall_forall in Hall. exact (Hall n Hn).
  - intros structKeys' names' Hk' Hp'. rewrite Hk'.
    destruct (Nat.eqb_spec (List.length names') 0) as [H0|_].
    { apply Permutation_length in Hp'.
      destruct names; [congruence|]. simpl in Hp'. lia. }
    rewrite (sort_Strings_unique names' names Hp'), Hsort. reflexivity.
Qed.

Lemma test_first_struct_least_witness :
  test_template_data (Some "structs") (fun _ => Some ["InfoHeader"; "FileHeader"])
    "formats/bmp" "bmp" "FormatModules"
  = inl (mkTestTemplateData "bmp" "formats" "FileHeader" "FormatModules").
Proof.
  destruct (test_first_struct_least "structs" (fun _ => Some ["InfoHeader"; "FileHeader"])
              "formats/bmp" "bmp" "FormatModules" ["InfoHeader"; "FileHeader"]
              eq_refl ltac:(discriminate)) as [d [Hd _]].
  rewrite Hd. f_equal.
  vm_compute in Hd. injection Hd as <-. reflexivity.
Defined.

End TestScriptProps.

(* ------------------------------------------------------------------ *)
(** ** [strings.TrimSpace] *)

Module GoLibProps.
Local Open Scope list_scope.

Lemma elem_of_map {A B} (f : A -> B) (l : list A) (y : B) :
  y ∈ map f l <-> exists x, y = f x /\ x ∈ l.
Proof. exact (list_elem_of_fmap f l y). Qed.

Fixpoint drop_sp (l : list ascii) : list ascii :=
  match l with
  | [] => []
  | c :: r => if is_space c then drop_sp r else l
  end.

Definition head_not_space (l : list ascii) : Prop :=
  match l with
  | c :: _ => is_space c = false
  | [] => True
  end.

Lemma trim_left_list (s : string) :
  list_ascii_of_string (trim_left s) = drop_sp (list_ascii_of_string s).
Proof.
  induction s as [|c s IH]; simpl; [reflexivity|].
  destruct (is_space c); [exact IH | reflexivity].
Qed.

Lemma TrimSpace_list (s : string) :
  TrimSpace s
  = string_of_list_ascii (rev (drop_sp (rev (drop_sp (list_ascii_of_string s))))).
Proof.
  unfold TrimSpace, string_rev.
  rewrite !trim_left_list, list_ascii_of_string_of_list_ascii. reflexivity.
Qed.

Lemma drop_sp_head (l : list ascii) : head_not_space (drop_sp l).
Proof.
  induction l as [|c l IH]; simpl; [exact I|].
  destruct (is_space c) eqn:Hc; [exact IH | exact Hc].
Qed.

Lemma drop_sp_suffix (l : list ascii) : exists p, l = p ++ drop_sp l.
Proof.
  induction l as [|c l [p Hp]]; simpl; [exists []; reflexivity|].
  destruct (is_space c); [exists (c :: p); simpl; f_equal; exact Hp|].
  exists []; reflexivity.
Qed.

Lemma drop_sp_noop (l : list ascii) : head_not_space l -> drop_sp l = l.
Proof. destruct l as [|c l]; simpl; [reflexivity|]. intros ->. reflexivity. Qed.

(** [strings.TrimSpace] is idempotent. *)
Lemma TrimSpace_idem (s : string) : TrimSpace (TrimSpace s) = TrimSpace s.
Proof.
  rewrite (TrimSpace_list (TrimSpace s)), (TrimSpace_list s),
    list_ascii_of_string_of_list_ascii.
  f_equal.
  set (l1 := drop_sp (list_ascii_of_string s)).
  set (l2 := drop_sp (rev l1)).
  assert (H2 : drop_sp (rev l2) = rev l2).
  { apply drop_sp_noop.
    destruct (drop_sp_suffix (rev l1)) as [p Hp]. fold l2 in Hp.
    pose proof (drop_sp_head (list_ascii_of_string s)) as Hh. fold l1 in Hh.
    destruct l2 as [|d y] using rev_ind; [exact I|].
    rewrite rev_unit. simpl.
    assert (Hl1 : l1 = rev (p ++ y ++ [d])).
    { rewrite <- Hp, rev_involutive. reflexivity. }
    rewrite Hl1, !rev_app_distr in Hh. exact Hh. }
  rewrite H2, rev_involutive, drop_sp_noop by apply drop_sp_head.
  reflexivity.
Qed.

End GoLibProps.

(* ------------------------------------------------------------------ *)
(** ** The selection prompts *)

Module SelectionProps.
Import Selection GoLibProps.
Local Open Scope list_scope.

Section Props.
Context {A : Type}.
Variable key : A -> string.

(** A part of the input that names an item of a list of length [n]. *)
Definition valid_part (n : nat) (part : string) : Prop :=
  exists idx, Atoi (TrimSpace part) = Some idx /\ (1 <= idx <= Z.of_nat n)%Z.

Lemma select_parts_ok (items : list A) (parts : list string) (sel out : list A) :
  select_parts items parts sel = inl out ->
  (exists t, out = sel ++ t /\ forall x, x ∈ t -> x ∈ items) /\
  (forall part, part ∈ parts -> TrimSpace part <> "" ->
     exists idx x, Atoi (TrimSpace part) = Some idx
                   /\ (1 <= idx <= Z.of_nat (List.length items))%Z
                   /\ items !! Z.to_nat (idx - 1) = Some x /\ x ∈ out).
Proof.
  revert sel. induction parts as [|part rest IH]; intros sel; simpl.
  - intros H. injection H as <-. split.
    + exists []. rewrite app_nil_r. split; [reflexivity|]. intros x Hx. inversion Hx.
    + intros part Hp. inversion Hp.
  - destruct (String.eqb_spec (TrimSpace part) "") as [Hb|Hb].
    + intros H. destruct (IH sel H) as [Hpre Hparts]. split; [exact Hpre|].
      intros p Hp Hnb. apply elem_of_cons in Hp as [->|Hp]; [congruence|].
      exact (Hparts p Hp Hnb).
    + destruct (Atoi (TrimSpace part)) as [idx|] eqn:Ha; [|discriminate].
      destruct ((idx <? 1)%Z || (Z.of_nat (List.length items) <? idx)%Z) eqn:Hr;
        [discriminate|].
      apply orb_false_iff in Hr as [Hr1 Hr2].
      apply Z.ltb_ge in Hr1, Hr2.
      destruct (items !! Z.to_nat (idx - 1)) as [x|] eqn:Hx; [|discriminate].
      intros H. destruct (IH (sel ++ [x]) H) as [[t [Ht Hti]] Hparts].
      split.
      * exists (x :: t). split; [rewrite Ht, <- app_assoc; reflexivity|].
        intros y Hy. apply elem_of_cons in Hy as [->|Hy].
        -- exact (list_elem_of_lookup_2 _ _ _ Hx).
        -- exact (Hti y Hy).
      * intros p Hp Hnb. apply elem_of_cons in Hp as [->|Hp].
        -- exists idx, x. repeat split; try assumption; try lia.
           rewrite Ht, <- app_assoc. apply elem_of_app. right. left.
        -- exact (Hparts p Hp Hnb).
Qed.

Lemma select_parts_err (items : list A) (parts : list string) (sel : list A) :
  (exists e, select_parts items parts sel = inr e)
  <-> exists part, part ∈ parts /\ TrimSpace part <> ""
                   /\ ~ valid_part (List.length items) part.
Proof.
  revert sel. induction parts as [|part rest IH]; intros sel; simpl.
  - split; [intros [e He]; discriminate | intros (p & Hp & _); inversion Hp].
  - destruct (String.eqb_spec (TrimSpace part) "") as [Hb|Hb].
    + rewrite IH. split.
      * intros (p & Hp & Hnb & Hv). exists p. split; [right; exact Hp | auto].
      * intros (p & Hp & Hnb & Hv). apply elem_of_cons in Hp as [->|Hp]; [congruence|].
        exists p. auto.
    + destruct (Atoi (TrimSpace part)) as [idx|] eqn:Ha.
      2: { split; [|eauto]. intros _. exists part.
           split; [left|]. split; [exact Hb|]. intros (i & Hi & _). congruence. }
      destruct ((idx <? 1)%Z || (Z.of_nat (List.length items) <? idx)%Z) eqn:Hr.
      { split; [|eauto]. intros _. exists part.
        split; [left|]. split; [exact Hb|]. intros (i & Hi & Hin).
        rewrite Ha in Hi. injection Hi as <-.
        apply orb_true_iff in Hr as [Hr|Hr]; apply Z.ltb_lt in Hr; lia. }
      apply orb_false_iff in Hr as [Hr1 Hr2]. apply Z.ltb_ge in Hr1, Hr2.
      destruct (items !! Z.to_nat (idx - 1)) as [x|] eqn:Hx.
      2: { apply lookup_ge_None in Hx. lia. }
      rewrite IH. split.
      * intros (p & Hp & Hnb & Hv). exists p. split; [right; exact Hp | auto].
      * intros (p & Hp & Hnb & Hv). apply elem_of_cons in Hp as [->|Hp].
        -- exfalso. apply Hv. exists idx. split; [exact Ha | lia].
        -- exists p. auto.
Qed.

Lemma dedupe_spec (seen : gset string) (l acc : list A) :
  (forall k, k ∈ seen <-> k ∈ map key acc) -> NoDup (map key acc) ->
  NoDup (map key (dedupe key seen l acc)) /\
  (forall x, x ∈ dedupe key seen l acc -> x ∈ acc \/ x ∈ l) /\
  (forall x, x ∈ l -> key x ∈ map key (dedupe key seen l acc)) /\
  (forall x, x ∈ acc -> x ∈ dedupe key seen l acc).
Proof.
  revert seen acc. induction l as [|x l IH]; intros seen acc Hseen Hnd; simpl.
  - split; [exact Hnd|]. split; [auto|]. split; [|auto].
    intros x Hx. inversion Hx.
  - case_bool_decide as Hin.
    + destruct (IH seen acc Hseen Hnd) as (H1 & H2 & H3 & H4).
      split; [exact H1|]. split.
      { intros y Hy. destruct (H2 y Hy) as [?|?]; [left; auto | right; right; auto]. }
      split; [|exact H4].
      intros y Hy. apply elem_of_cons in Hy as [->|Hy]; [|exact (H3 y Hy)].
      apply Hseen, elem_of_map in Hin as (z & Hz & Hzin).
      rewrite Hz. apply elem_of_map. exists z. split; [reflexivity|]. exact (H4 z Hzin).
    + assert (Hseen' : forall k, k ∈ ({[key x]} ∪ seen : gset string)
                                 <-> k ∈ map key (acc ++ [x])).
      { intros k. rewrite elem_of_union, elem_of_singleton, map_app, elem_of_app, Hseen.
        simpl. rewrite list_elem_of_singleton. tauto. }
      assert (Hnd' : NoDup (map key (acc ++ [x]))).
      { rewrite map_app. apply NoDup_app. split; [exact Hnd|]. split.
        - intros k Hk. simpl. rewrite list_elem_of_singleton. intros ->.
          apply Hin, Hseen, Hk.
        - simpl. apply NoDup_singleton. }
      destruct (IH _ _ Hseen' Hnd') as (H1 & H2 & H3 & H4).
      split; [exact H1|]. split.
      { intros y Hy. destruct (H2 y Hy) as [Hy'|Hy'].
        - apply elem_of_app in Hy' as [?|Hy']; [left; auto|].
          apply list_elem_of_singleton in Hy' as ->. right. left.
        - right. right. exact Hy'. }
      split.
      { intros y Hy. apply elem_of_cons in Hy as [->|Hy]; [|exact (H3 y Hy)].
        apply elem_of_map. exists x. split; [reflexivity|].
        apply H4, elem_of_app. right. left. }
      intros y Hy. apply H4, elem_of_app. left. exact Hy.
Qed.

(** A successful selection from a non-blank answer: no two selected
    items share a key, every selected item is one of the offered items,
    and for each non-blank comma-separated part, the item it numbers
    (from 1) has its key among the selected ones. *)
Theorem show_selection_ok (items : list A) (input : string) (out : list A)
    (Hne : items <> []) (Hnb : TrimSpace input <> "")
    (Hok : show_selection key items (Some input) = inl out) :
  NoDup (map key out) /\
  (forall x, x ∈ out -> x ∈ items) /\
  (forall part, part ∈ Split (TrimSpace input) ","%char -> TrimSpace part <> "" ->
     exists idx x, Atoi (TrimSpace part) = Some idx
                   /\ (1 <= idx <= Z.of_nat (List.length items))%Z
                   /\ items !! Z.to_nat (idx - 1) = Some x
                   /\ key x ∈ map key out).
Proof.
  unfold show_selection in Hok.
  destruct (Nat.eqb_spec (List.length items) 0) as [H0|_].
  { destruct items; [congruence | discriminate]. }
  destruct (String.eqb_spec (TrimSpace input) "") as [Hb|_]; [congruence|].
  destruct (select_parts items (Split (TrimSpace input) ","%char) []) as [sel|e] eqn:Hsel;
    [|discriminate].
  injection Hok as <-.
  destruct (select_parts_ok _ _ _ _ Hsel) as [[t [Ht Hti]] Hparts].
  simpl in Ht. subst t.
  destruct (dedupe_spec ∅ sel [] ltac:(intros k; split; intros Hk; inversion Hk)
              ltac:(constructor)) as (H1 & H2 & H3 & _).
  split; [exact H1|]. split.
  - intros x Hx. destruct (H2 x Hx) as [Hx'|Hx']; [inversion Hx' | exact (Hti x Hx')].
  - intros part Hp Hpb. destruct (Hparts part Hp Hpb) as (idx & x & Ha & Hr & Hx & Hin).
    exists idx, x. split; [exact Ha|]. split; [exact Hr|]. split; [exact Hx|].
    exact (H3 x Hin).
Qed.

(** A non-blank answer is rejected exactly when one of its non-blank
    comma-separated parts is not a decimal integer between 1 and the
    number of items. *)
Theorem show_selection_error_iff (items : list A) (input : string)
    (Hne : items <> []) (Hnb : TrimSpace input <> "") :
  (exists e, show_selection key items (Some input) = inr e)
  <-> exists part, part ∈ Split (TrimSpace input) ","%char
                   /\ TrimSpace part <> ""
                   /\ ~ valid_part (List.length items) part.
Proof.
  unfold show_selection.
  destruct (Nat.eqb_spec (List.length items) 0) as [H0|_].
  { destruct items; [congruence | discriminate]. }
  destruct (String.eqb_spec (TrimSpace input) "") as [Hb|_]; [congruence|].
  rewrite <- (select_parts_err items _ []).
  destruct (select_parts items (Split (TrimSpace input) ","%char) []) as [sel|e].
  - split; intros [e He]; discriminate.
  - split; intros _; exists e; reflexivity.
Qed.

End Props.

Lemma show_selection_ok_witness :
  showSourceFileSelection ["a"; "b"; "c"] (Some " 3, 1,3 ") = inl ["c"; "a"] /\
  NoDup (map (fun file : string => file) ["c"; "a"]).
Proof.
  split; [reflexivity|].
  apply (show_selection_ok (fun file => file) ["a"; "b"; "c"] " 3, 1,3 " ["c"; "a"]);
    [discriminate | vm_compute; discriminate | reflexivity].
Defined.

Lemma show_selection_error_iff_witness :
  (exists e, showSourceFileSelection ["a"; "b"] (Some "1, 3") = inr e) /\
  ((exists e, showSourceFileSelection ["a"; "b"] (Some "1, 3") = inr e)
   <-> exists part, part ∈ Split (TrimSpace "1, 3") ","%char
                    /\ TrimSpace part <> "" /\ ~ valid_part 2 part).
Proof.
  split; [eexists; reflexivity|].
  apply (show_selection_error_iff (fun file => file) ["a"; "b"] "1, 3");
    [discriminate | vm_compute; discriminate].
Defined.

End SelectionProps.

(* ------------------------------------------------------------------ *)
(** ** [GetGoModulePath] *)

Module ModulePathProps.
Import ModulePath.

(** The module path [GetGoModulePath] returns has no leading or trailing
    white space, from either source. *)
Theorem GetGoModulePath_trimmed (goListOutput goMod : option string) (path : string) :
  GetGoModulePath goListOutput goMod = inl path -> TrimSpace path = path.
Proof.
  unfold GetGoModulePath.
  destruct goListOutput as [out|].
  - intros H. injection H as <-. apply GoLibProps.TrimSpace_idem.
  - destruct goMod as [modData|]; [|discriminate].
    destruct (first_module_line _) as [line|]; [|discriminate].
    intros H. injection H as <-. apply GoLibProps.TrimSpace_idem.
Qed.

Lemma GetGoModulePath_trimmed_witness :
  GetGoModulePath None (Some ("go 1.21" ++ String "010"%char "module  FormatModules ")) = inl "FormatModules" /\
  TrimSpace "FormatModules" = "FormatModules".
Proof.
  split; [reflexivity|].
  apply (GetGoModulePath_trimmed None
           (Some ("go 1.21" ++ String "010"%char "module  FormatModules "))).
  reflexivity.
Defined.

End ModulePathProps.

(* ------------------------------------------------------------------ *)
(** ** [runBootstrap]: source files and configuration update *)

Module BootstrapProps.
Import Config Bootstrap GoLibProps.
Local Open Scope list_scope.

(** The files offered for bootstrapping: sorted, and exactly the paths
    [sources/<name>] of the entries that are not directories and whose
    name ends in ".yml" or ".yaml". *)
Theorem yaml_files_spec (files : list DirEntry) :
  Sorted String.le (yaml_files files) /\
  forall path, path ∈ yaml_files files
    <-> exists e, e ∈ files /\ e_IsDir e = false
                  /\ (HasSuffix (e_Name e) ".yml" || HasSuffix (e_Name e) ".yaml") = true
                  /\ path = Join sourceDir (e_Name e).
Proof.
  unfold yaml_files, sort_Strings. split.
  - apply Sorted_merge_sort. typeclasses eauto.
  - intros path.
    rewrite (merge_sort_Permutation String.le), elem_of_map. split.
    + intros (e & -> & He).
      apply list_elem_of_In in He. apply filter_In in He as [He Hf].
      apply andb_true_iff in Hf as [Hd Hs]. apply negb_true_iff in Hd.
      exists e. split; [apply list_elem_of_In; exact He|]. auto.
    + intros (e & He & Hd & Hs & ->). exists e. split; [reflexivity|].
      apply list_elem_of_In, filter_In. split; [apply list_elem_of_In; exact He|].
      rewrite Hd, Hs. reflexivity.
Qed.

Section Derive.
(** [strings.ToLower]. *)
Variable ToLower : string -> string.

Section Update.
Variable validate : string -> string -> bool.
(** The selected files and the configurations before the loop. *)
Variable selectedAll : list string.
Variable cs0 : list FormatConfig.

(** The configuration map points at configurations of the right path. *)
Definition map_ok (m : gmap string nat) (cs : list FormatConfig) : Prop :=
  forall y i, m !! y = Some i -> exists c, cs !! i = Some c /\ fc_YAMLFile c = y.

(** [c] carries the paths derived from the selected, valid file [y]. *)
Definition derived_from (c : FormatConfig) (y : string) : Prop :=
  y ∈ selectedAll /\ validate y (derive ToLower y).1.1 = true
  /\ fc_OutputDir c = (derive ToLower y).1.1 /\ fc_PackageName c = (derive ToLower y).1.2.

Definition old_kept (c c' : FormatConfig) : Prop :=
  fc_Name c' = fc_Name c /\ fc_YAMLFile c' = fc_YAMLFile c
  /\ (c' = c \/ derived_from c' (fc_YAMLFile c)).

Definition new_ok (c' : FormatConfig) : Prop :=
  derived_from c' (fc_YAMLFile c') /\ fc_Name c' = (derive ToLower (fc_YAMLFile c')).2.

Definition configs_ok (cs : list FormatConfig) : Prop :=
  (List.length cs0 <= List.length cs)%nat /\
  (forall i c, cs0 !! i = Some c -> exists c', cs !! i = Some c' /\ old_kept c c') /\
  (forall i c', (List.length cs0 <= i)%nat -> cs !! i = Some c' -> new_ok c').

Definition covered (done : list string) (cs : list FormatConfig) : Prop :=
  forall y, y ∈ done -> validate y (derive ToLower y).1.1 = true ->
    exists c, c ∈ cs /\ fc_YAMLFile c = y
              /\ fc_OutputDir c = (derive ToLower y).1.1 /\ fc_PackageName c = (derive ToLower y).1.2.

Lemma build_configMap_ok (pre cfgs : list FormatConfig) (m : gmap string nat) :
  map_ok m (pre ++ cfgs) ->
  map_ok (build_configMap (List.length pre) cfgs m) (pre ++ cfgs).
Proof.
  revert pre m. induction cfgs as [|cfg rest IH]; intros pre m Hm; simpl; [exact Hm|].
  replace (S (List.length pre)) with (List.length (pre ++ [cfg]))
    by (rewrite length_app; simpl; lia).
  replace (pre ++ cfg :: rest) with ((pre ++ [cfg]) ++ rest)
    by (rewrite <- app_assoc; reflexivity).
  apply IH. rewrite <- app_assoc. simpl.
  intros y i Hy. destruct (String.eq_dec (fc_YAMLFile cfg) y) as [<-|Hne].
  - rewrite lookup_insert_eq in Hy. injection Hy as <-.
    exists cfg. split; [|reflexivity]. apply list_lookup_middle. reflexivity.
  - rewrite lookup_insert_ne in Hy by exact Hne. exact (Hm y i Hy).
Qed.

Lemma update_configs_ok (selected : list string) :
  forall m cs upd done,
    map_ok m cs -> (forall y, y ∈ selected -> y ∈ selectedAll) ->
    configs_ok cs -> covered done cs ->
    exists out upd',
      update_configs ToLower validate m selected cs upd = Some (out, upd')
      /\ configs_ok out /\ covered (done ++ selected) out
      /\ upd' = upd || existsb (fun y => validate y (derive ToLower y).1.1) selected.
Proof.
  induction selected as [|y rest IH]; intros m cs upd done Hm Hsel Hcs Hcov;
    cbn [update_configs existsb].
  - exists cs, upd. rewrite app_nil_r, orb_false_r. auto.
  - assert (Hy : y ∈ selectedAll) by (apply Hsel; left).
    assert (Hrest : forall y', y' ∈ rest -> y' ∈ selectedAll)
      by (intros y' Hy'; apply Hsel; right; exact Hy').
    replace (done ++ y :: rest) with ((done ++ [y]) ++ rest)
      by (rewrite <- app_assoc; reflexivity).
    destruct (derive ToLower y) as [[outputDir packageName] formatName] eqn:Hd.
    simpl. destruct (validate y outputDir) eqn:Hv; simpl.
    2: { destruct (IH m cs upd (done ++ [y]) Hm Hrest Hcs) as (out & upd' & Hu & Ho & Hc & Hf).
         { intros y' Hy' Hv'. apply elem_of_app in Hy' as [Hy'|Hy'];
             [exact (Hcov y' Hy' Hv')|].
           apply list_elem_of_singleton in Hy' as ->. rewrite Hd in Hv'. simpl in Hv'.
           congruence. }
         exists out, upd'. split; [exact Hu|]. split; [exact Ho|]. split; [exact Hc|].
         rewrite Hf. reflexivity. }
    assert (Hder : forall c, fc_OutputDir c = outputDir -> fc_PackageName c = packageName ->
                             derived_from c y).
    { intros c Ho Hp. unfold derived_from. rewrite Hd. simpl. auto. }
    destruct (m !! y) as [index|] eqn:Hmy.
    + destruct (Hm y index Hmy) as (c & Hc & HcY). rewrite Hc.
      set (c' := mkFormatConfig (fc_Name c) (fc_YAMLFile c) outputDir packageName).
      assert (Hlt : (index < List.length cs)%nat) by (eapply lookup_lt_Some; exact Hc).
      destruct (IH m (<[index := c']> cs) true (done ++ [y])) as (out & upd' & Hu & Ho & Hcv & Hf).
      * intros y' i Hi. destruct (Hm y' i Hi) as (c0 & Hc0 & Hc0Y).
        destruct (Nat.eq_dec index i) as [<-|Hne].
        -- exists c'. rewrite list_lookup_insert_eq by exact Hlt.
           split; [reflexivity|]. simpl. congruence.
        -- exists c0. rewrite list_lookup_insert_ne by exact Hne. auto.
      * exact Hrest.
      * destruct Hcs as (Hlen & Hold & Hnew). split; [|split].
        -- rewrite length_insert. exact Hlen.
        -- intros i c0 Hi. destruct (Hold i c0 Hi) as (c1 & Hc1 & Hk).
           destruct (Nat.eq_dec index i) as [<-|Hne].
           ++ rewrite Hc in Hc1. injection Hc1 as <-.
              exists c'. rewrite list_lookup_insert_eq by exact Hlt.
              split; [reflexivity|].
              destruct Hk as (HN & HY & _).
              split; [simpl; exact HN|]. split; [simpl; exact HY|].
              right. rewrite <- HY, HcY. apply Hder; reflexivity.
           ++ exists c1. rewrite list_lookup_insert_ne by exact Hne. auto.
        -- intros i c1 Hi Hc1.
           destruct (Nat.eq_dec index i) as [<-|Hne].
           ++ rewrite list_lookup_insert_eq in Hc1 by exact Hlt. injection Hc1 as <-.
              destruct (Hnew index c Hi Hc) as (_ & HN).
              split; simpl; [rewrite HcY; apply Hder; reflexivity|].
              exact HN.
           ++ rewrite list_lookup_insert_ne in Hc1 by exact Hne.
              exact (Hnew i c1 Hi Hc1).
      * intros y' Hy' Hv'. apply elem_of_app in Hy' as [Hy'|Hy'].
        -- destruct (Hcov y' Hy' Hv') as (c1 & Hc1 & Hc1Y & Hc1O & Hc1P).
           apply list_elem_of_lookup in Hc1 as [j Hj].
           destruct (Nat.eq_dec index j) as [<-|Hne].
           ++ rewrite Hc in Hj. injection Hj as <-.
              exists c'. split; [apply list_elem_of_lookup; exists index;
                                 apply list_lookup_insert_eq; exact Hlt|].
              assert (y' = y) as -> by congruence.
              rewrite Hd. simpl. auto.
           ++ exists c1. split; [|auto].
              apply list_elem_of_lookup. exists j.
              rewrite list_lookup_insert_ne by exact Hne. exact Hj.
        -- apply list_elem_of_singleton in Hy' as ->.
           exists c'. split; [apply list_elem_of_lookup; exists index;
                              apply list_lookup_insert_eq; exact Hlt|].
           rewrite Hd. simpl. auto.
      * exists out, upd'. split; [exact Hu|]. split; [exact Ho|]. split; [exact Hcv|].
        rewrite Hf. simpl. rewrite ?Hd, ?Hv. btauto.
    + set (c' := mkFormatConfig formatName y outputDir packageName).
      destruct (IH m (cs ++ [c']) true (done ++ [y])) as (out & upd' & Hu & Ho & Hcv & Hf).
      * intros y' i Hi. destruct (Hm y' i Hi) as (c0 & Hc0 & Hc0Y).
        exists c0. rewrite lookup_app_l by (eapply lookup_lt_Some; exact Hc0). auto.
      * exact Hrest.
      * destruct Hcs as (Hlen & Hold & Hnew). split; [|split].
        -- rewrite length_app. lia.
        -- intros i c0 Hi. destruct (Hold i c0 Hi) as (c1 & Hc1 & Hk).
           exists c1. rewrite lookup_app_l by (eapply lookup_lt_Some; exact Hc1). auto.
        -- intros i c1 Hi Hc1. apply lookup_snoc_Some in Hc1 as [[_ Hc1]|[_ <-]].
           ++ exact (Hnew i c1 Hi Hc1).
           ++ split; [apply Hder; reflexivity|]. change (fc_YAMLFile c') with y. rewrite Hd. reflexivity.
      * intros y' Hy' Hv'. apply elem_of_app in Hy' as [Hy'|Hy'].
        -- destruct (Hcov y' Hy' Hv') as (c1 & Hc1 & Hrest1).
           exists c1. split; [apply elem_of_app; left; exact Hc1 | exact Hrest1].
        -- apply list_elem_of_singleton in Hy' as ->.
           exists c'. split; [apply elem_of_app; right; left|].
           rewrite Hd. simpl. auto.
      * exists out, upd'. split; [exact Hu|]. split; [exact Ho|]. split; [exact Hcv|].
        rewrite Hf. simpl. rewrite ?Hd, ?Hv. btauto.
Qed.

End Update.

Lemma bootstrap_configs_ok (validate : string -> string -> bool)
    (currentConfigs : list FormatConfig) (selectedYamlFiles : list string) :
  exists out configUpdated,
    bootstrap_configs ToLower validate currentConfigs selectedYamlFiles = Some (out, configUpdated)
    /\ configs_ok validate selectedYamlFiles currentConfigs out
    /\ covered validate selectedYamlFiles out
    /\ configUpdated = existsb (fun y => validate y (derive ToLower y).1.1) selectedYamlFiles.
Proof.
  unfold bootstrap_configs.
  destruct (update_configs_ok validate selectedYamlFiles currentConfigs selectedYamlFiles
              (build_configMap 0 currentConfigs ∅) currentConfigs false [])
    as (out & upd & Hu & Ho & Hc & Hf).
  - apply (build_configMap_ok [] currentConfigs ∅). intros y i Hy. inversion Hy.
  - auto.
  - split; [lia|]. split.
    + intros i c Hc. exists c. split; [exact Hc|].
      split; [reflexivity|]. split; [reflexivity|]. left. reflexivity.
    + intros i c Hi Hc. apply lookup_lt_Some in Hc. lia.
  - intros y Hy. inversion Hy.
  - exists out, upd. auto.
Qed.

(** The bootstrap loop never indexes out of range, and it keeps every
    configuration it started with, in place: the [Name] and [YAMLFile]
    of each stay, and its [OutputDir] and [PackageName] are either
    unchanged or those derived from its [YAMLFile], when that file was
    selected and validated.  [configUpdated] is set exactly when some
    selected file validated. *)
Theorem bootstrap_keeps_configs (validate : string -> string -> bool)
    (currentConfigs : list FormatConfig) (selectedYamlFiles : list string) :
  exists out configUpdated,
    bootstrap_configs ToLower validate currentConfigs selectedYamlFiles = Some (out, configUpdated)
    /\ configUpdated = existsb (fun y => validate y (derive ToLower y).1.1) selectedYamlFiles
    /\ forall i c, currentConfigs !! i = Some c ->
         exists c', out !! i = Some c'
           /\ fc_Name c' = fc_Name c /\ fc_YAMLFile c' = fc_YAMLFile c
           /\ (c' = c
               \/ (fc_YAMLFile c ∈ selectedYamlFiles
                   /\ validate (fc_YAMLFile c) (derive ToLower (fc_YAMLFile c)).1.1 = true
                   /\ fc_OutputDir c' = (derive ToLower (fc_YAMLFile c)).1.1
                   /\ fc_PackageName c' = (derive ToLower (fc_YAMLFile c)).1.2)).
Proof.
  destruct (bootstrap_configs_ok validate currentConfigs selectedYamlFiles)
    as (out & upd & Hb & (_ & Hold & _) & _ & Hf).
  exists out, upd. split; [exact Hb|]. split; [exact Hf|].
  intros i c Hc. destruct (Hold i c Hc) as (c' & Hc' & HN & HY & Hk).
  exists c'. split; [exact Hc'|]. split; [exact HN|]. split; [exact HY|]. exact Hk.
Qed.

(** After the bootstrap loop, every selected file that validated has a
    configuration with its [YAMLFile] and the [OutputDir] and
    [PackageName] derived from it; and every configuration added by the
    loop comes from a selected, validated file, named after it. *)
Theorem bootstrap_covers_selection (validate : string -> string -> bool)
    (currentConfigs : list FormatConfig) (selectedYamlFiles : list string) :
  exists out configUpdated,
    bootstrap_configs ToLower validate currentConfigs selectedYamlFiles = Some (out, configUpdated)
    /\ (forall y, y ∈ selectedYamlFiles -> validate y (derive ToLower y).1.1 = true ->
          exists c, c ∈ out /\ fc_YAMLFile c = y
                    /\ fc_OutputDir c = (derive ToLower y).1.1
                    /\ fc_PackageName c = (derive ToLower y).1.2)
    /\ (forall i c', (List.length currentConfigs <= i)%nat -> out !! i = Some c' ->
          fc_YAMLFile c' ∈ selectedYamlFiles
          /\ validate (fc_YAMLFile c') (derive ToLower (fc_YAMLFile c')).1.1 = true
          /\ fc_Name c' = (derive ToLower (fc_YAMLFile c')).2
          /\ fc_OutputDir c' = (derive ToLower (fc_YAMLFile c')).1.1
          /\ fc_PackageName c' = (derive ToLower (fc_YAMLFile c')).1.2).
Proof.
  destruct (bootstrap_configs_ok validate currentConfigs selectedYamlFiles)
    as (out & upd & Hb & (_ & _ & Hnew) & Hcov & _).
  exists out, upd. split; [exact Hb|]. split; [exact Hcov|].
  intros i c' Hi Hc'. destruct (Hnew i c' Hi Hc') as ((Hs & Hv & Ho & Hp) & HN).
  auto.
Qed.

End Derive.

End BootstrapProps.

(* ------------------------------------------------------------------ *)
(** ** Key normalisation: normal form and idempotence *)

Module KeyNormMoreProps.
Import KeyNorm KeyNormProps.
Local Open Scope list_scope.

(** A value tree whose mappings all have string keys, as the
    [map[string]interface{}] values built by
    [lowercaseFieldKeysRecursive]. *)
Fixpoint string_keyed (v : gval) : bool :=
  match v with
  | GSMap kvs =>
      (fix go (l : list (string * gval)) : bool :=
         match l with
         | [] => true
         | (_, x) :: rest => string_keyed x && go rest
         end) kvs
  | GIMap _ => false
  | GList vs =>
      (fix go (l : list gval) : bool :=
         match l with
         | [] => true
         | x :: rest => string_keyed x && go rest
         end) vs
  | _ => true
  end.

Section Normal.
Variable ToLower : string -> string.

(** A tree that [lowercaseFieldKeysRecursive] leaves as it is: string
    keys only, distinct in each mapping, each already its own
    [string_key]. *)
Fixpoint normal (v : gval) : Prop :=
  match v with
  | GSMap kvs =>
      List.NoDup (map fst kvs) /\
      (fix go (l : list (string * gval)) : Prop :=
         match l with
         | [] => True
         | (k, x) :: rest => (string_key ToLower k = k /\ normal x) /\ go rest
         end) kvs
  | GIMap _ => False
  | GList vs =>
      (fix go (l : list gval) : Prop :=
         match l with
         | [] => True
         | x :: rest => normal x /\ go rest
         end) vs
  | _ => True
  end.

End Normal.

Lemma string_keyed_GSMap (kvs : list (string * gval)) :
  string_keyed (GSMap kvs) = true <-> Forall (fun kv => string_keyed (snd kv) = true) kvs.
Proof.
  induction kvs as [|[k x] kvs IH]; simpl.
  - split; intros; [constructor|reflexivity].
  - rewrite andb_true_iff, List.Forall_cons_iff. simpl. rewrite <- IH. reflexivity.
Qed.

Lemma string_keyed_GList (vs : list gval) :
  string_keyed (GList vs) = true <-> Forall (fun v => string_keyed v = true) vs.
Proof.
  induction vs as [|x vs IH]; simpl.
  - split; intros; [constructor|reflexivity].
  - rewrite andb_true_iff, List.Forall_cons_iff. rewrite <- IH. reflexivity.
Qed.

Lemma normal_GSMap (ToLower : string -> string) (kvs : list (string * gval)) :
  normal ToLower (GSMap kvs)
  <-> List.NoDup (map fst kvs) /\
      Forall (fun kv => string_key ToLower (fst kv) = fst kv /\ normal ToLower (snd kv)) kvs.
Proof.
  cbn [normal]. apply and_iff_compat_l.
  induction kvs as [|[k x] kvs IH].
  - split; intros; [constructor|exact I].
  - rewrite List.Forall_cons_iff, <- IH. reflexivity.
Qed.

Lemma normal_GList (ToLower : string -> string) (vs : list gval) :
  normal ToLower (GList vs) <-> Forall (normal ToLower) vs.
Proof.
  induction vs as [|x vs IH].
  - split; intros; [constructor|exact I].
  - cbn [normal]. rewrite List.Forall_cons_iff, <- IH. reflexivity.
Qed.

Lemma map_set_keys (m : list (string * gval)) (k : string) (v : gval) :
  map fst (map_set m k v)
  = if existsb (String.eqb k) (map fst m) then map fst m else map fst m ++ [k].
Proof.
  induction m as [|[k' v'] m IH]; simpl; [reflexivity|].
  destruct (String.eqb_spec k k') as [->|Hne]; simpl; [reflexivity|].
  rewrite IH. destruct (existsb _ _); reflexivity.
Qed.

Lemma map_set_NoDup (m : list (string * gval)) (k : string) (v : gval) :
  List.NoDup (map fst m) -> List.NoDup (map fst (map_set m k v)).
Proof.
  intros Hnd. rewrite map_set_keys.
  destruct (existsb (String.eqb k) (map fst m)) eqn:He; [exact Hnd|].
  apply NoDup_ListNoDup. apply NoDup_app. split; [apply NoDup_ListNoDup; exact Hnd|].
  split; [|apply NoDup_singleton].
  intros x Hx Hin. apply list_elem_of_singleton in Hin as ->.
  assert (Hf : existsb (String.eqb k) (map fst m) = true).
  { apply existsb_exists. exists k. split; [apply list_elem_of_In; exact Hx|].
    apply String.eqb_refl. }
  congruence.
Qed.

Lemma map_set_in (m : list (string * gval)) (k : string) (v : gval) kv :
  In kv (map_set m k v) -> In kv m \/ kv = (k, v).
Proof.
  induction m as [|[k' v'] m IH]; simpl.
  - intros [<-|[]]. right. reflexivity.
  - destruct (String.eqb k k').
    + intros [<-|Hin]; [right; reflexivity|]. left. right. exact Hin.
    + intros [<-|Hin]; [left; left; reflexivity|].
      destruct (IH Hin) as [H|H]; [left; right; exact H | right; exact H].
Qed.

(** The filled [newMap] has distinct keys, and each of its entries is
    an entry of the accumulator or a processed entry of the input. *)
Lemma fill_newMap_spec {K : Type} (keyf : K -> string) (f : gval -> gval)
    (acc : list (string * gval)) (l : list (K * gval)) :
  List.NoDup (map fst acc) ->
  List.NoDup (map fst (fill_newMap keyf f acc l)) /\
  forall kv, In kv (fill_newMap keyf f acc l) ->
    In kv acc \/ exists kx, In kx l /\ kv = (keyf (fst kx), f (snd kx)).
Proof.
  revert acc. induction l as [|[key val] l IH]; intros acc Hnd; simpl.
  - split; [exact Hnd|]. intros kv Hkv. left. exact Hkv.
  - destruct (IH _ (map_set_NoDup acc (keyf key) (f val) Hnd)) as [H1 H2].
    split; [exact H1|]. intros kv Hkv.
    destruct (H2 kv Hkv) as [Hm|(kx & Hkx & ->)].
    + destruct (map_set_in _ _ _ _ Hm) as [Ha| ->]; [left; exact Ha|].
      right. exists (key, val). split; [left; reflexivity|reflexivity].
    + right. exists kx. split; [right; exact Hkx | reflexivity].
Qed.

Lemma fill_newMap_fresh_nil {K : Type} (keyf : K -> string) (f : gval -> gval)
    (l : list (K * gval)) :
  List.NoDup (map (fun kv => keyf (fst kv)) l) ->
  fill_newMap keyf f [] l = map (fun kv => (keyf (fst kv), f (snd kv))) l.
Proof. intros Hnd. rewrite fill_newMap_fresh; [reflexivity|exact Hnd|intros k []]. Qed.

(** A normal tree is a fixed point. *)
Lemma lowercase_normal (ToLower : string -> string) (v : gval) :
  normal ToLower v -> lowercaseFieldKeysRecursive ToLower v = v.
Proof.
  induction v as [| | | |kvs IH|kvs IH|vs IH] using gval_ind2;
    try reflexivity; intros Hn.
  - apply normal_GSMap in Hn as [Hnd Hf].
    rewrite lowercase_GSMap, fill_newMap_fresh_nil.
    + f_equal. rewrite <- (map_id kvs) at 2. apply map_ext_in.
      intros [k x] Hin.
      destruct (proj1 (List.Forall_forall _ _) Hf _ Hin) as [Hk Hx].
      simpl in *. rewrite Hk. f_equal.
      exact (proj1 (List.Forall_forall _ _) IH _ Hin Hx).
    + erewrite map_ext_in; [exact Hnd|].
      intros [k x] Hin. exact (proj1 (proj1 (List.Forall_forall _ _) Hf _ Hin)).
  - destruct Hn.
  - apply normal_GList in Hn. rewrite lowercase_GList. f_equal.
    rewrite <- (map_id vs) at 2. apply map_ext_in. intros x Hin.
    exact (proj1 (List.Forall_forall _ _) IH x Hin
             (proj1 (List.Forall_forall _ _) Hn x Hin)).
Qed.

(** Every mapping of the output has string keys. *)
Lemma lowercase_string_keyed (ToLower : string -> string) (v : gval) :
  string_keyed (lowercaseFieldKeysRecursive ToLower v) = true.
Proof.
  induction v as [| | | |kvs IH|kvs IH|vs IH] using gval_ind2; try reflexivity.
  - rewrite lowercase_GSMap, string_keyed_GSMap. apply List.Forall_forall.
    intros kv Hkv.
    destruct (fill_newMap_spec (string_key ToLower) (lowercaseFieldKeysRecursive ToLower)
                [] kvs (List.NoDup_nil _)) as [_ Hin].
    destruct (Hin kv Hkv) as [[]|(kx & Hkx & ->)].
    exact (proj1 (List.Forall_forall _ _) IH kx Hkx).
  - rewrite lowercase_GIMap, string_keyed_GSMap. apply List.Forall_forall.
    intros kv Hkv.
    destruct (fill_newMap_spec print_key (lowercaseFieldKeysRecursive ToLower)
                [] kvs (List.NoDup_nil _)) as [_ Hin].
    destruct (Hin kv Hkv) as [[]|(kx & Hkx & ->)].
    exact (proj1 (List.Forall_forall _ _) IH kx Hkx).
  - rewrite lowercase_GList, string_keyed_GList, List.Forall_map. exact IH.
Qed.

Section Idem.
Variable ToLower : string -> string.
Hypothesis ToLower_idem : forall s, ToLower (ToLower s) = ToLower s.

Lemma string_key_idem (k : string) :
  string_key ToLower (string_key ToLower k) = string_key ToLower k.
Proof.
  unfold string_key.
  destruct (is_known (ToLower k)) eqn:Hk.
  - rewrite ToLower_idem, Hk. reflexivity.
  - rewrite Hk. reflexivity.
Qed.

(** Normalising a string-keyed tree yields a normal tree. *)
Lemma lowercase_string_keyed_normal (v : gval) :
  string_keyed v = true -> normal ToLower (lowercaseFieldKeysRecursive ToLower v).
Proof.
  induction v as [| | | |kvs IH|kvs IH|vs IH] using gval_ind2;
    try (intros; exact I); intros Hs.
  - apply string_keyed_GSMap in Hs.
    rewrite lowercase_GSMap, normal_GSMap.
    destruct (fill_newMap_spec (string_key ToLower) (lowercaseFieldKeysRecursive ToLower)
                [] kvs (List.NoDup_nil _)) as [Hnd Hin].
    split; [exact Hnd|]. apply List.Forall_forall. intros kv Hkv.
    destruct (Hin kv Hkv) as [[]|(kx & Hkx & ->)]. simpl.
    split; [apply string_key_idem|].
    exact (proj1 (List.Forall_forall _ _) IH kx Hkx
             (proj1 (List.Forall_forall _ _) Hs kx Hkx)).
  - discriminate Hs.
  - apply string_keyed_GList in Hs.
    rewrite lowercase_GList, normal_GList, List.Forall_map.
    apply List.Forall_forall. intros x Hx.
    exact (proj1 (List.Forall_forall _ _) IH x Hx
             (proj1 (List.Forall_forall _ _) Hs x Hx)).
Qed.

End Idem.

Lemma lower_char_ascii_idem (c : ascii) :
  lower_char_ascii (lower_char_ascii c) = lower_char_ascii c.
Proof.
  destruct c as [b0 b1 b2 b3 b4 b5 b6 b7].
  destruct b0, b1, b2, b3, b4, b5, b6, b7; vm_compute; reflexivity.
Qed.

Lemma ToLower_ascii_idem (s : string) : ToLower_ascii (ToLower_ascii s) = ToLower_ascii s.
Proof.
  induction s as [|c s IH]; simpl; [reflexivity|].
  rewrite lower_char_ascii_idem, IH. reflexivity.
Qed.

(** A decoded descriptor: the top-level [map[string]interface{}] holds
    [map[interface{}]interface{}] values. *)
Definition descriptor_ex : gval :=
  GSMap [("structs",
          GIMap [(KStr "Header",
                  GIMap [(KStr "fields",
                          GList [GIMap [(KStr "Name", GStr "Signature");
                                        (KStr "Type", GStr "string");
                                        (KStr "Length", GInt 2)]])])])].

(** [lowercaseFieldKeysRecursive] is not idempotent on a decoded
    descriptor: a second pass sees the nested keys as string keys and
    lowercases "Name", "Type" and "Length". *)
Lemma lowercase_not_idempotent :
  lowercaseFieldKeysRecursive ToLower_ascii
    (lowercaseFieldKeysRecursive ToLower_ascii descriptor_ex)
  <> lowercaseFieldKeysRecursive ToLower_ascii descriptor_ex.
Proof. vm_compute. discriminate. Qed.

(** Every mapping of the output of [lowercaseFieldKeysRecursive], at any
    depth, is a [map[string]interface{}]: no
    [map[interface{}]interface{}] is left. *)
Theorem lowercase_output_string_keyed (ToLower : string -> string) (v : gval) :
  string_keyed (lowercaseFieldKeysRecursive ToLower v) = true.
Proof. apply lowercase_string_keyed. Qed.

(** A nested mapping (a [map[interface{}]interface{}]) whose keys print
    to distinct strings becomes a [map[string]interface{}] with the same
    entries in the same order, each keyed by the [%v] form of its key,
    with no key lowercased, and with its value normalised. *)
Theorem lowercase_nested_map_keys_printed (ToLower : string -> string)
    (kvs : list (gkey * gval))
    (Hnd : List.NoDup (map (fun kv => print_key (fst kv)) kvs)) :
  lowercaseFieldKeysRecursive ToLower (GIMap kvs)
  = GSMap (map (fun kv => (print_key (fst kv), lowercaseFieldKeysRecursive ToLower (snd kv)))
             kvs).
Proof. rewrite lowercase_GIMap, fill_newMap_fresh_nil by exact Hnd. reflexivity. Qed.

Definition nested_kvs_ex : list (gkey * gval) :=
  [(KStr "Name", GStr "Signature"); (KInt 1, GStr "one"); (KBool true, GBool false)].

Lemma lowercase_nested_map_keys_printed_witness :
  List.NoDup (map (fun kv => print_key (fst kv)) nested_kvs_ex) /\
  lowercaseFieldKeysRecursive ToLower_ascii (GIMap nested_kvs_ex)
  = GSMap [("Name", GStr "Signature"); ("1", GStr "one"); ("true", GBool false)].
Proof.
  assert (Hnd : List.NoDup (map (fun kv => print_key (fst kv)) nested_kvs_ex)).
  { vm_compute. repeat constructor; simpl; intuition discriminate. }
  split; [exact Hnd|].
  rewrite (lowercase_nested_map_keys_printed ToLower_ascii nested_kvs_ex Hnd).
  vm_compute. reflexivity.
Defined.

(** For an idempotent [strings.ToLower]: [lowercaseFieldKeysRecursive]
    is idempotent on trees whose mappings all have string keys, and two
    passes reach a fixed point on every tree (one pass is not enough on
    a decoded descriptor, whose nested keys the first pass does not
    lowercase). *)
Theorem lowercase_idempotent_after_two (ToLower : string -> string)
    (Hidem : forall s, ToLower (ToLower s) = ToLower s) :
  (forall v, string_keyed v = true ->
     lowercaseFieldKeysRecursive ToLower (lowercaseFieldKeysRecursive ToLower v)
     = lowercaseFieldKeysRecursive ToLower v) /\
  (forall v,
     lowercaseFieldKeysRecursive ToLower
       (lowercaseFieldKeysRecursive ToLower (lowercaseFieldKeysRecursive ToLower v))
     = lowercaseFieldKeysRecursive ToLower (lowercaseFieldKeysRecursive ToLower v)).
Proof.
  split.
  - intros v Hs. apply lowercase_normal, lowercase_string_keyed_normal; assumption.
  - intros v. apply lowercase_normal, lowercase_string_keyed_normal;
      [assumption | apply lowercase_string_keyed].
Qed.

Lemma lowercase_idempotent_after_two_witness :
  (forall s, ToLower_ascii (ToLower_ascii s) = ToLower_ascii s) /\
  lowercaseFieldKeysRecursive ToLower_ascii
    (lowercaseFieldKeysRecursive ToLower_ascii
       (lowercaseFieldKeysRecursive ToLower_ascii descriptor_ex))
  = GSMap [("structs",
            GSMap [("Header",
                    GSMap [("fields",
                            GList [GSMap [("name", GStr "Signature");
                                          ("type", GStr "string");
                                          ("length", GInt 2)]])])])].
Proof.
  split; [exact ToLower_ascii_idem|].
  rewrite (proj2 (lowercase_idempotent_after_two ToLower_ascii ToLower_ascii_idem)
             descriptor_ex).
  vm_compute. reflexivity.
Defined.

End KeyNormMoreProps.
